(** * Verification of scripts/data_insertion.py (car-market loader)

    Shallow embedding of the cleaning-and-loading pipeline:
    - cell values of a pandas frame ([val]) and the pandas operations the
      cleaners use (to_numeric with errors="coerce", astype("Int64"),
      astype("string"), .str.strip/.str.lower, Series.map with a dict,
      drop_duplicates, dropna, masked assignment through .loc);
    - the six cleaners, [to_py] and [rows_as_tuples];
    - [insert_batches] and [main], whose database calls and log lines are
      recorded in a trace threaded through a small state/error monad. *)

From Stdlib Require Import ZArith QArith String Ascii List Lia.
From stdpp Require Import base list gmap strings pretty.

Local Open Scope Z_scope.
Set Warnings "-abstract-large-number".

(* ================================================================== *)
(** ** Errors and the result type *)

(** Python exceptions that the modelled code can raise. *)
Inductive exn :=
  | KeyError (cols : list string)          (** missing column(s) *)
  | ValueError (table : string) (missing : list string)
                                            (** validate_columns *)
  | TypeError                               (** astype("Int64") of a non-integral float *)
  | DbError (code : nat).                   (** any psycopg2 / connection error *)

Inductive result (A : Type) :=
  | Ok (a : A)
  | Err (e : exn).
Arguments Ok {A} a.
Arguments Err {A} e.

Definition res_bind {A B} (m : result A) (k : A -> result B) : result B :=
  match m with
  | Ok a => k a
  | Err e => Err e
  end.

Notation "'let!' x ':=' m 'in' k" := (res_bind m (fun x => k))
  (at level 200, x name, m at level 100, k at level 200).

(* ================================================================== *)
(** ** Cell values *)

(** A cell of a pandas frame: missing (NaN / pd.NA / None), an integer,
    a float (modelled exactly as a rational; NaN is [VNA]), a string or a
    boolean. *)
Inductive val :=
  | VNA
  | VInt (z : Z)
  | VFloat (q : Q)
  | VStr (s : string)
  | VBool (b : bool).

Definition is_na (v : val) : bool :=
  match v with VNA => true | _ => false end.

(** Numeric view of a cell, as pandas compares it. *)
Definition num_of (v : val) : option Q :=
  match v with
  | VInt z => Some (inject_Z z)
  | VFloat q => Some q
  | VBool b => Some (if b then 1 else 0)%Q
  | _ => None
  end.

Definition q_lt (a b : Q) : bool :=
  Z.ltb (Qnum a * Zpos (Qden b)) (Qnum b * Zpos (Qden a)).

Definition q_le (a b : Q) : bool :=
  Z.leb (Qnum a * Zpos (Qden b)) (Qnum b * Zpos (Qden a)).

(** Python equality of two cells, as used by the hash table behind
    drop_duplicates: numbers compare by value across int/float/bool
    (1 == 1.0 == True), strings by content, and missing values are
    duplicates of each other. *)
Definition py_eq (a b : val) : bool :=
  match a, b with
  | VNA, VNA => true
  | VStr s, VStr t => String.eqb s t
  | _, _ =>
      match num_of a, num_of b with
      | Some x, Some y => Qeq_bool x y
      | _, _ => false
      end
  end.

(* ================================================================== *)
(** ** Text helpers (ASCII model of Python's str methods) *)

Definition ascii_lower (c : ascii) : ascii :=
  let n := nat_of_ascii c in
  if (65 <=? n)%nat && (n <=? 90)%nat then ascii_of_nat (n + 32) else c.

(** [str.isspace] on one byte: \t \n \v \f \r, \x1c..\x1f and space. *)
Definition py_isspace (c : ascii) : bool :=
  let n := nat_of_ascii c in
  ((9 <=? n)%nat && (n <=? 13)%nat) || ((28 <=? n)%nat && (n <=? 32)%nat).

Fixpoint lstrip_list (cs : list ascii) : list ascii :=
  match cs with
  | [] => []
  | c :: rest => if py_isspace c then lstrip_list rest else cs
  end.

Definition py_lower (s : string) : string :=
  string_of_list_ascii (List.map ascii_lower (list_ascii_of_string s)).

Definition py_strip (s : string) : string :=
  string_of_list_ascii
    (List.rev (lstrip_list (List.rev (lstrip_list (list_ascii_of_string s))))).

(** Decimal digits. *)
Definition digit_of (c : ascii) : option Z :=
  let n := nat_of_ascii c in
  if (48 <=? n)%nat && (n <=? 57)%nat then Some (Z.of_nat (n - 48)) else None.

Fixpoint digits_value (acc : Z) (cs : list ascii) : option Z :=
  match cs with
  | [] => Some acc
  | c :: rest =>
      match digit_of c with
      | Some d => digits_value (acc * 10 + d) rest
      | None => None
      end
  end.

Fixpoint split_dot (cs : list ascii) : list ascii * option (list ascii) :=
  match cs with
  | [] => ([], None)
  | c :: rest =>
      if Ascii.eqb c "."%char then ([], Some rest)
      else let '(a, b) := split_dot rest in (c :: a, b)
  end.

(** The string parser of pd.to_numeric, for decimal literals
    [[+-]digits[.digits]] (at least one digit): an integer literal gives an
    int, a literal with a point a float. Other spellings (exponents, "inf")
    are outside the model and coerce to missing. *)
Definition parse_number (s : string) : option val :=
  let cs := list_ascii_of_string s in
  let '(sign, body) :=
    match cs with
    | c :: rest =>
        if Ascii.eqb c "-"%char then ((-1)%Z, rest)
        else if Ascii.eqb c "+"%char then (1%Z, rest) else (1%Z, cs)
    | [] => (1%Z, cs)
    end in
  match split_dot body with
  | (ip, None) =>
      match ip with
      | [] => None
      | _ => option_map (fun z => VInt (sign * z)) (digits_value 0 ip)
      end
  | (ip, Some fp) =>
      match ip ++ fp with
      | [] => None
      | all =>
          option_map
            (fun z => VFloat (Qmake (sign * z) (Pos.of_nat (10 ^ length fp))))
            (digits_value 0 all)
      end
  end.

(** str() of a float in fixed-point notation: "2.0", "-0.5", "2001.5"
    (fraction digits are produced until exhausted, at most 17). *)
Fixpoint frac_digits (fuel : nat) (r : Z) (d : positive) : string :=
  match fuel with
  | O => EmptyString
  | S f =>
      if r =? 0 then EmptyString
      else String.append (pretty ((r * 10) / Zpos d))
             (frac_digits f ((r * 10) mod Zpos d) d)
  end.

Definition float_repr (q : Q) : string :=
  let n := Qnum q in
  let d := Qden q in
  let sign := if n <? 0 then "-"%string else EmptyString in
  let a := Z.abs n in
  let frac := frac_digits 17 (a mod Zpos d) d in
  String.append sign
    (String.append (pretty (a / Zpos d))
       (String.append "." (if String.eqb frac EmptyString then "0"%string else frac))).

(* ================================================================== *)
(** ** Cell conversions (pandas) *)

(** pd.to_numeric(x, errors="coerce"), cell by cell. *)
Definition to_numeric (v : val) : val :=
  match v with
  | VNA => VNA
  | VInt z => VInt z
  | VFloat q => VFloat q
  | VBool b => VBool b
  | VStr s => match parse_number s with Some n => n | None => VNA end
  end.

(** .astype("Int64"): a float with a fractional part cannot be cast
    safely and raises TypeError. *)
Definition astype_Int64 (v : val) : result val :=
  match v with
  | VNA => Ok VNA
  | VInt z => Ok (VInt z)
  | VBool b => Ok (VInt (if b then 1 else 0))
  | VFloat q =>
      if Z.eqb (Qnum q mod Zpos (Qden q)) 0
      then Ok (VInt (Qnum q / Zpos (Qden q)))
      else Err TypeError
  | VStr _ => Err TypeError
  end.

(** pd.to_numeric(col, errors="coerce").astype("Int64") *)
Definition to_key (v : val) : result val := astype_Int64 (to_numeric v).

(** .astype("string") *)
Definition astype_string (v : val) : val :=
  match v with
  | VNA => VNA
  | VStr s => VStr s
  | VInt z => VStr (pretty z)
  | VFloat q => VStr (float_repr q)
  | VBool b => VStr (if b then "True" else "False")
  end.

(** .str.strip() and .str.lower() on a string column *)
Definition str_strip (v : val) : val :=
  match v with VStr s => VStr (py_strip s) | _ => v end.

Definition str_lower (v : val) : val :=
  match v with VStr s => VStr (py_lower s) | _ => v end.

(** The dict handed to Series.map in clean_appearance and clean_status;
    a key not in the dict maps to NaN. *)
Definition bool_dict : list (string * bool) :=
  [("true", true); ("false", false); ("1", true); ("0", false);
   ("yes", true); ("no", false)]%string.

Definition map_dict (v : val) : val :=
  match v with
  | VStr s =>
      match List.find (fun kv => String.eqb (fst kv) s) bool_dict with
      | Some (_, b) => VBool b
      | None => VNA
      end
  | _ => VNA
  end.

(* ================================================================== *)
(** ** Frames *)

(** A pandas DataFrame: its column labels and its rows, each row with its
    index label and its cells by column name. *)
Record frame := mk_frame {
  columns : list string;
  rows : list (nat * gmap string val)
}.

Definition row := (nat * gmap string val)%type.

Definition cell (r : gmap string val) (c : string) : val := default VNA (r !! c).

(** [c in df.columns] *)
Definition has_col (df : frame) (c : string) : bool :=
  existsb (String.eqb c) (columns df).

Definition update_row (c : string) (f : val -> val) (lr : row) : row :=
  (fst lr, <[c := f (cell (snd lr) c)]> (snd lr)).

(** [df[c] = f(df[c])] for a cell-wise total [f]; reading [df[c]] raises
    KeyError when the column is missing. *)
Definition assign (c : string) (f : val -> val) (df : frame) : result frame :=
  if has_col df c
  then Ok (mk_frame (columns df) (List.map (update_row c f) (rows df)))
  else Err (KeyError [c]).

Fixpoint map_rows_res (c : string) (f : val -> result val) (rs : list row)
    : result (list row) :=
  match rs with
  | [] => Ok []
  | (l, r) :: rest =>
      let! v := f (cell r c) in
      let! rest' := map_rows_res c f rest in
      Ok ((l, <[c := v]> r) :: rest')
  end.

(** [df[c] = f(df[c])] for a column conversion that fails as a whole
    (astype) as soon as one cell cannot be converted. *)
Definition assign_res (c : string) (f : val -> result val) (df : frame)
    : result frame :=
  if has_col df c
  then let! rs := map_rows_res c f (rows df) in Ok (mk_frame (columns df) rs)
  else Err (KeyError [c]).

(** [df.loc[mask(df[c]), c] = pd.NA] *)
Definition loc_set_na (c : string) (mask : val -> bool) (df : frame)
    : result frame :=
  assign c (fun v => if mask v then VNA else v) df.

Fixpoint dedup_rows (c : string) (seen : list val) (rs : list row) : list row :=
  match rs with
  | [] => []
  | lr :: rest =>
      let k := cell (snd lr) c in
      if existsb (py_eq k) seen then dedup_rows c seen rest
      else lr :: dedup_rows c (k :: seen) rest
  end.

(** [df.drop_duplicates(subset=[c])], keeping the first occurrence. *)
Definition drop_duplicates (c : string) (df : frame) : result frame :=
  if has_col df c
  then Ok (mk_frame (columns df) (dedup_rows c [] (rows df)))
  else Err (KeyError [c]).

Definition notna_row (cs : list string) (lr : row) : bool :=
  forallb (fun c => negb (is_na (cell (snd lr) c))) cs.

(** [df.dropna(subset=cs)] *)
Definition dropna (cs : list string) (df : frame) : result frame :=
  match List.filter (fun c => negb (has_col df c)) cs with
  | [] => Ok (mk_frame (columns df) (List.filter (notna_row cs) (rows df)))
  | missing => Err (KeyError missing)
  end.

(** [for col in cs: if col in df.columns: df[col] = df[col].astype("string").str.strip()] *)
Fixpoint strip_cols (cs : list string) (df : frame) : result frame :=
  match cs with
  | [] => Ok df
  | c :: rest =>
      let! df := if has_col df c
                 then assign c (fun v => str_strip (astype_string v)) df
                 else Ok df in
      strip_cols rest df
  end.

(* ================================================================== *)
(** ** The six cleaners *)

Definition negative (v : val) : bool :=
  match num_of v with Some q => q_lt q 0 | None => false end.

Definition non_positive (v : val) : bool :=
  match num_of v with Some q => q_le q 0 | None => false end.

Definition year_out_of_range (current_year : Z) (v : val) : bool :=
  match num_of v with
  | Some q => q_lt q (inject_Z 1950) || q_lt (inject_Z current_year) q
  | None => false
  end.

(** [s = df[c].astype("string").str.lower().str.strip(); df[c] = s.map({...})] *)
Definition bool_cell (v : val) : val :=
  map_dict (str_strip (str_lower (astype_string v))).

Definition clean_core (df : frame) : result frame :=
  let! df := drop_duplicates "listing_id" df in
  let! df := assign_res "listing_id" to_key df in
  let! df := assign "url" (fun v => str_strip (astype_string v)) df in
  dropna ["listing_id"; "url"] df.

(** [current_year] is [pd.Timestamp.today().year]. *)
Definition clean_pricing (current_year : Z) (df : frame) : result frame :=
  let! df := drop_duplicates "listing_id" df in
  let! df := assign_res "listing_id" to_key df in
  let! df := if has_col df "price"
             then let! df := assign "price" to_numeric df in
                  loc_set_na "price" negative df
             else Ok df in
  let! df := if has_col df "year"
             then let! df := assign_res "year" to_key df in
                  loc_set_na "year" (year_out_of_range current_year) df
             else Ok df in
  let! df := if has_col df "mileage"
             then let! df := assign_res "mileage" to_key df in
                  loc_set_na "mileage" negative df
             else Ok df in
  dropna ["listing_id"] df.

Definition clean_vehicle (df : frame) : result frame :=
  let! df := drop_duplicates "listing_id" df in
  let! df := assign_res "listing_id" to_key df in
  let! df := strip_cols ["make"; "model"] df in
  dropna ["listing_id"] df.

Definition clean_specs (df : frame) : result frame :=
  let! df := drop_duplicates "listing_id" df in
  let! df := assign_res "listing_id" to_key df in
  let! df := if has_col df "engine_size"
             then let! df := assign "engine_size" to_numeric df in
                  loc_set_na "engine_size" non_positive df
             else Ok df in
  let! df := if has_col df "wheel_size"
             then let! df := assign "wheel_size" to_numeric df in
                  loc_set_na "wheel_size" non_positive df
             else Ok df in
  let! df := strip_cols ["engine_type"; "transmission"; "drive_type";
                         "steering_wheel"; "comfort"] df in
  dropna ["listing_id"] df.

Definition clean_appearance (df : frame) : result frame :=
  let! df := drop_duplicates "listing_id" df in
  let! df := assign_res "listing_id" to_key df in
  let! df := strip_cols ["body_type"; "color"; "interior_material"] df in
  let! df := if has_col df "sunroof" then assign "sunroof" bool_cell df else Ok df in
  dropna ["listing_id"] df.

Definition clean_status (df : frame) : result frame :=
  let! df := drop_duplicates "listing_id" df in
  let! df := assign_res "listing_id" to_key df in
  let! df := if has_col df "cleared_customs"
             then assign "cleared_customs" bool_cell df else Ok df in
  let! df := strip_cols ["condition"] df in
  dropna ["listing_id"] df.

(** The six tables of the schema, in the order [main] loads them. *)
Inductive table := Core | Pricing | Vehicle | Specs | Appearance | Status.

Definition clean (current_year : Z) (t : table) : frame -> result frame :=
  match t with
  | Core => clean_core
  | Pricing => clean_pricing current_year
  | Vehicle => clean_vehicle
  | Specs => clean_specs
  | Appearance => clean_appearance
  | Status => clean_status
  end.

(** Building a frame from a column list and rows of cells, index 0, 1, ... *)
Definition frame_of (cols : list string) (cells : list (list val)) : frame :=
  mk_frame cols
    (imap (fun i vs => (i, list_to_map (zip cols vs) : gmap string val)) cells).


Definition res_map {A B} (f : A -> B) (m : result A) : result B :=
  match m with Ok a => Ok (f a) | Err e => Err e end.

(* ================================================================== *)
(** ** Scalars handed to psycopg2: [to_py] and [rows_as_tuples] *)

(** Python primitive values. *)
Inductive prim :=
  | PInt (z : Z)
  | PFloat (q : Q)
  | PStr (s : string)
  | PBool (b : bool).

(** Python scalars as they come out of a frame: None, a float NaN, pd.NA,
    a plain primitive, a numpy scalar wrapping a primitive (np.int64,
    np.float64, np.bool_, np.str_) or a numpy float NaN. *)
Inductive pyval :=
  | PyNone
  | PyNaN
  | PdNA
  | PyPrim (p : prim)
  | NpScalar (p : prim)
  | NpNaN.

(** [pd.isna(x)] on a scalar. *)
Definition pd_isna (x : pyval) : bool :=
  match x with
  | PyNone | PyNaN | PdNA | NpNaN => true
  | _ => false
  end.

(** [x.item()]: [None] when [x] has no attribute [item] (Python primitives
    and pd.NA), otherwise the outcome of the call. *)
Definition item (x : pyval) : option (result pyval) :=
  match x with
  | NpScalar p => Some (Ok (PyPrim p))
  | NpNaN => Some (Ok PyNaN)
  | _ => None
  end.

Definition to_py (x : pyval) : pyval :=
  if pd_isna x then PyNone
  else match item x with
       | Some (Ok v) => v
       | Some (Err _) => x      (* except Exception: pass *)
       | None => x
       end.

(** The scalar [itertuples] yields for a cell: numpy scalars for numeric
    cells, Python objects for strings and the booleans of an object
    column, pd.NA for a missing cell. *)
Definition cell_to_py (v : val) : pyval :=
  match v with
  | VNA => PdNA
  | VInt z => NpScalar (PInt z)
  | VFloat q => NpScalar (PFloat q)
  | VStr s => PyPrim (PStr s)
  | VBool b => PyPrim (PBool b)
  end.

Definition tuple := list pyval.

Fixpoint tuples_loop (cols : list string) (out : list tuple) (rs : list row)
    : list tuple :=
  match rs with
  | [] => out
  | lr :: rest =>
      tuples_loop cols (out ++ [List.map (fun c => to_py (cell_to_py (cell (snd lr) c))) cols]) rest
  end.

(** [rows_as_tuples(df, cols)]: [df[cols]] raises KeyError for missing
    columns; then one tuple per row, [out.append(...)] in row order. *)
Definition rows_as_tuples (df : frame) (cols : list string) : result (list tuple) :=
  match List.filter (fun c => negb (has_col df c)) cols with
  | [] => Ok (tuples_loop cols [] (rows df))
  | missing => Err (KeyError missing)
  end.

(* ================================================================== *)
(** ** Trace of database calls and log lines *)

Inductive log_entry :=
  | LAfterCleaning (counts : list nat)
  | LZeroRows (table : string)
  | LBatch (table : string) (start stop total : nat)
  | LCommitted
  | LInsertFailed (e : exn)
  | LRolledBack.

Inductive event :=
  | EConnect
  | EAutocommitOff
  | ECursorOpen
  | ECursorClose
  | EExec (table : string) (cols : list string) (page : list tuple)
  | ECommit
  | ERollback
  | EClose
  | ELog (l : log_entry).

(** Behaviour of the database: for every call, [None] when it succeeds
    and [Some e] when it raises [e]. A statement's outcome may depend on
    its table and on the rows it inserts. *)
Record db := mk_db {
  connect_fails : option exn;
  autocommit_fails : option exn;
  cursor_fails : option exn;
  exec_fails : string -> list tuple -> option exn;
  commit_fails : option exn;
  rollback_fails : option exn;
  close_fails : option exn
}.

(** Program state: the trace so far and whether [conn] is not None. *)
Record st := mk_st { trace : list event; conn : bool }.

Definition M (A : Type) := st -> result A * st.

Definition ret {A} (a : A) : M A := fun s => (Ok a, s).

Definition m_bind {A B} (m : M A) (k : A -> M B) : M B :=
  fun s => match m s with
           | (Ok a, s') => k a s'
           | (Err e, s') => (Err e, s')
           end.

Notation "x <- m ;; k" := (m_bind m (fun x => k))
  (at level 100, m at next level, right associativity).

Definition raise {A} (e : exn) : M A := fun s => (Err e, s).

Definition lift {A} (r : result A) : M A := fun s => (r, s).

Definition emit (ev : event) : M unit :=
  fun s => (Ok tt, mk_st (trace s ++ [ev]) (conn s)).

Definition log (l : log_entry) : M unit := emit (ELog l).

(** A database call: recorded in the trace, then it succeeds or raises. *)
Definition db_call (ev : event) (outcome : option exn) : M unit :=
  _ <- emit ev ;;
  match outcome with None => ret tt | Some e => raise e end.

(** [try: m except Exception: pass] *)
Definition try_pass (m : M unit) : M unit :=
  fun s => match m s with (_, s') => (Ok tt, s') end.

(** [try: m except Exception as e: h e] *)
Definition try_except {A} (m : M A) (h : exn -> M A) : M A :=
  fun s => match m s with
           | (Err e, s') => h e s'
           | r => r
           end.

(** [try: m finally: f]; here [f] never raises. *)
Definition try_finally {A} (m : M A) (f : M unit) : M A :=
  fun s => match m s with
           | (r, s') => match f s' with
                        | (Ok _, s'') => (r, s'')
                        | (Err e, s'') => (Err e, s'')
                        end
           end.

Fixpoint for_each {A} (xs : list A) (f : A -> M unit) : M unit :=
  match xs with
  | [] => ret tt
  | x :: rest => _ <- f x ;; for_each rest f
  end.

(* ================================================================== *)
(** ** Batch insert *)

Definition BATCH_SIZE : nat := 5000.

(** [range(start, stop, step)]; [fuel] bounds the number of iterations. *)
Fixpoint py_range (fuel start stop step : nat) : list nat :=
  match fuel with
  | O => []
  | S f => if (start <? stop)%nat then start :: py_range f (start + step) stop step else []
  end.

(** psycopg2.extras._paginate: consecutive pages of [page_size] items, the
    last one possibly shorter. *)
Fixpoint paginate {A} (fuel page_size : nat) (xs : list A) : list (list A) :=
  match fuel with
  | O => []
  | S f =>
      match xs with
      | [] => []
      | _ => firstn page_size xs :: paginate f page_size (skipn page_size xs)
      end
  end.

(** [execute_values(cur, sql, argslist, page_size)]: one statement per page. *)
Definition execute_values (env : db) (table : string) (cols : list string)
    (argslist : list tuple) (page_size : nat) : M unit :=
  for_each (paginate (length argslist) page_size argslist)
    (fun page => db_call (EExec table cols page) (exec_fails env table page)).

Definition insert_batches (env : db) (table : string) (cols : list string)
    (rs : list tuple) : M unit :=
  match rs with
  | [] => log (LZeroRows table)
  | _ =>
      let total := length rs in
      for_each (py_range total 0 total BATCH_SIZE) (fun start =>
        let batch := firstn BATCH_SIZE (skipn start rs) in
        _ <- execute_values env table cols batch (length batch) ;;
        log (LBatch table start (Nat.min (start + BATCH_SIZE) total) total))
  end.

(* ================================================================== *)
(** ** main *)

Definition validate_columns (df : frame) (required : list string) (table : string)
    : result unit :=
  match List.filter (fun c => negb (has_col df c)) required with
  | [] => Ok tt
  | missing => Err (ValueError table missing)
  end.

Definition core_cols : list string := ["listing_id"; "url"].
Definition pricing_cols : list string := ["listing_id"; "price"; "year"; "mileage"].
Definition vehicle_cols : list string := ["listing_id"; "make"; "model"].
Definition specs_cols : list string :=
  ["listing_id"; "engine_size"; "engine_type"; "transmission"; "drive_type";
   "steering_wheel"; "wheel_size"; "comfort"].
Definition appearance_cols : list string :=
  ["listing_id"; "body_type"; "color"; "interior_material"; "sunroof"].
Definition status_cols : list string := ["listing_id"; "cleared_customs"; "condition"].

(** The six frames as read by [read_csv]. *)
Record inputs := mk_inputs {
  in_core : frame; in_pricing : frame; in_vehicle : frame;
  in_specs : frame; in_appearance : frame; in_status : frame
}.

(** One [insert_batches(cur, table, cols, rows_as_tuples(df, cols))] call. *)
Definition load (env : db) (table : string) (cols : list string) (df : frame) : M unit :=
  rs <- lift (rows_as_tuples df cols) ;;
  insert_batches env table cols rs.

(** [with conn.cursor() as cur: body]: the cursor is closed on both exits. *)
Definition with_cursor (env : db) (body : M unit) : M unit :=
  _ <- db_call ECursorOpen (cursor_fails env) ;;
  fun s => match body s with
           | (r, s') => match emit ECursorClose s' with (_, s'') => (r, s'') end
           end.

(** [conn = get_conn()]: [conn] is set only when the call returns. *)
Definition get_conn (env : db) : M unit :=
  _ <- db_call EConnect (connect_fails env) ;;
  fun s => (Ok tt, mk_st (trace s) true).

(** The body of the [try] block of [main]. *)
Definition try_body (env : db) (core pricing vehicle specs appearance status : frame)
    : M unit :=
  _ <- get_conn env ;;
  _ <- db_call EAutocommitOff (autocommit_fails env) ;;
  _ <- with_cursor env (
         _ <- load env "core" core_cols core ;;
         _ <- load env "pricing" pricing_cols pricing ;;
         _ <- load env "vehicle" vehicle_cols vehicle ;;
         _ <- load env "specs" specs_cols specs ;;
         _ <- load env "appearance" appearance_cols appearance ;;
         load env "status" status_cols status) ;;
  _ <- db_call ECommit (commit_fails env) ;;
  log LCommitted.

(** The [except Exception as e] clause. *)
Definition on_error (env : db) (e : exn) : M unit :=
  _ <- log (LInsertFailed e) ;;
  _ <- (fun s => if conn s
                 then try_pass (_ <- db_call ERollback (rollback_fails env) ;;
                                log LRolledBack) s
                 else ret tt s) ;;
  raise e.

(** The [finally] clause. *)
Definition close_conn (env : db) : M unit :=
  fun s => if conn s then try_pass (db_call EClose (close_fails env)) s else ret tt s.

Definition transacting (env : db) (core pricing vehicle specs appearance status : frame)
    : M unit :=
  try_finally
    (try_except (try_body env core pricing vehicle specs appearance status) (on_error env))
    (close_conn env).

(** The cleaning stage of [main] (after the six CSVs are read). *)
Definition prepare (current_year : Z) (inp : inputs) : result inputs :=
  let! _ := validate_columns (in_core inp) ["listing_id"; "url"] "core" in
  let! _ := validate_columns (in_pricing inp) ["listing_id"] "pricing" in
  let! _ := validate_columns (in_vehicle inp) ["listing_id"] "vehicle" in
  let! _ := validate_columns (in_specs inp) ["listing_id"] "specs" in
  let! _ := validate_columns (in_appearance inp) ["listing_id"] "appearance" in
  let! _ := validate_columns (in_status inp) ["listing_id"] "status" in
  let! core := clean_core (in_core inp) in
  let! pricing := clean_pricing current_year (in_pricing inp) in
  let! vehicle := clean_vehicle (in_vehicle inp) in
  let! specs := clean_specs (in_specs inp) in
  let! appearance := clean_appearance (in_appearance inp) in
  let! status := clean_status (in_status inp) in
  Ok (mk_inputs core pricing vehicle specs appearance status).

Definition main_m (env : db) (current_year : Z) (inp : inputs) : M unit :=
  cs <- lift (prepare current_year inp) ;;
  _ <- log (LAfterCleaning
              (List.map (fun df => length (rows df))
                 [in_core cs; in_pricing cs; in_vehicle cs; in_specs cs;
                  in_appearance cs; in_status cs])) ;;
  transacting env (in_core cs) (in_pricing cs) (in_vehicle cs) (in_specs cs)
    (in_appearance cs) (in_status cs).

(** A run of [main] from the start: no event yet, [conn = None]. *)
Definition main (env : db) (current_year : Z) (inp : inputs) : result unit * st :=
  main_m env current_year inp (mk_st [] false).

(* ================================================================== *)
(** ** Connection parameters *)

(** [os.environ] is a [gmap string string]; [os.getenv(k)] is a lookup. *)
Definition getenv (env : gmap string string) (k : string) : option string := env !! k.

(** [os.getenv(k, d)]. *)
Definition getenv_or (env : gmap string string) (k d : string) : string := default d (env !! k).

(** Python truth of [os.getenv(k)]: [None] and the empty string are false. *)
Definition truthy (o : option string) : bool :=
  match o with Some v => negb (String.eqb v EmptyString) | None => false end.

(** The keyword arguments of [psycopg2.connect]. *)
Record conn_params := mk_conn_params {
  host : option string; port : string; dbname : option string;
  user : option string; password : option string
}.

Definition required_env : list string := ["PGHOST"; "PGDATABASE"; "PGUSER"; "PGPASSWORD"].

(** The part of [get_conn] before [psycopg2.connect]: [inl missing] is the
    [RuntimeError] listing [missing], [inr p] the arguments of the connect
    call. *)
Definition get_conn_params (env : gmap string string) : list string + conn_params :=
  let host := getenv env "PGHOST" in
  let port := getenv_or env "PGPORT" "5432" in
  let db := getenv env "PGDATABASE" in
  let user := getenv env "PGUSER" in
  let pwd := getenv env "PGPASSWORD" in
  let missing := List.filter (fun k => negb (truthy (getenv env k))) required_env in
  match missing with
  | [] => inr (mk_conn_params host port db user pwd)
  | _ => inl missing
  end.

(** The assignments to [os.environ] run when the module is imported. *)
Definition module_environ (env : gmap string string) : gmap string string :=
  <["PGPASSWORD" := "1111"]> (<["PGUSER" := "sergey"]> (<["PGDATABASE" := "car_market"]>
    (<["PGPORT" := "5432"]> (<["PGHOST" := "localhost"]> env)))).

(* ================================================================== *)
(** ** Auxiliary definitions of the proofs, and sample inputs *)

(** The value a successful cell conversion stores. *)
Definition force (f : val -> result val) (v : val) : val :=
  match f v with Ok v' => v' | Err _ => VNA end.

Definition mask_na (mask : val -> bool) (v : val) : val := if mask v then VNA else v.

Definition strip_fn (v : val) : val := str_strip (astype_string v).

Definition strip_row (hc : string -> bool) (cs : list string) (r : row) : row :=
  fold_left (fun r c => if hc c then update_row c strip_fn r else r) cs r.

Definition pricing_row (current_year : Z) (hc : string -> bool) (r : row) : row :=
  let r := update_row "listing_id" (force to_key) r in
  let r := if hc "price"
           then update_row "price" (mask_na negative) (update_row "price" to_numeric r)
           else r in
  let r := if hc "year"
           then update_row "year" (mask_na (year_out_of_range current_year))
                  (update_row "year" (force to_key) r)
           else r in
  if hc "mileage"
  then update_row "mileage" (mask_na negative) (update_row "mileage" (force to_key) r)
  else r.

Definition key_row (r : row) : row := update_row "listing_id" (force to_key) r.

Definition core_row (r : row) : row := update_row "url" strip_fn (key_row r).

Definition vehicle_row (hc : string -> bool) (r : row) : row :=
  strip_row hc ["make"; "model"] (key_row r).

Definition specs_row (hc : string -> bool) (r : row) : row :=
  let r := key_row r in
  let r := if hc "engine_size"
           then update_row "engine_size" (mask_na non_positive)
                  (update_row "engine_size" to_numeric r)
           else r in
  let r := if hc "wheel_size"
           then update_row "wheel_size" (mask_na non_positive)
                  (update_row "wheel_size" to_numeric r)
           else r in
  strip_row hc ["engine_type"; "transmission"; "drive_type"; "steering_wheel"; "comfort"] r.

Definition appearance_row (hc : string -> bool) (r : row) : row :=
  let r := strip_row hc ["body_type"; "color"; "interior_material"] (key_row r) in
  if hc "sunroof" then update_row "sunroof" bool_cell r else r.

Definition status_row (hc : string -> bool) (r : row) : row :=
  let r := if hc "cleared_customs"
           then update_row "cleared_customs" bool_cell (key_row r)
           else key_row r in
  strip_row hc ["condition"] r.

Definition clean_row (current_year : Z) (t : table) (hc : string -> bool) : row -> row :=
  match t with
  | Core => core_row
  | Pricing => pricing_row current_year hc
  | Vehicle => vehicle_row hc
  | Specs => specs_row hc
  | Appearance => appearance_row hc
  | Status => status_row hc
  end.

Definition required_cols (t : table) : list string :=
  match t with Core => ["listing_id"; "url"] | _ => ["listing_id"] end.

Definition the_year : Z := 2026.

(** Two spellings of key 1 and a non-numeric key, as in an object column. *)
Definition core_spellings : frame :=
  frame_of core_cols
    [[VStr "1"; VStr "http://a"]; [VStr "01"; VStr "http://b"]; [VStr "x"; VStr "http://c"]].


Definition cleaned (t : table) (df : frame) : frame :=
  match clean the_year t df with Ok df' => df' | Err _ => df end.

Definition core_blank_url : frame :=
  frame_of core_cols [[VInt 2; VStr "   "]; [VInt 3; VNA]].

Definition pricing_sample : frame :=
  frame_of pricing_cols
    [[VInt 1; VInt (-5); VInt 1899; VInt (-1)];
     [VInt 2; VStr "7.5"; VInt 2999; VInt 5];
     [VInt 3; VFloat 0; VStr "2001"; VStr "abc"]].

(** The boolean vocabulary as the spec states it. *)
Definition bool_vocab (s : string) : val :=
  if existsb (String.eqb s) ["true"; "1"; "yes"]%string then VBool true
  else if existsb (String.eqb s) ["false"; "0"; "no"]%string then VBool false
  else VNA.

(** The spec's reading of a boolean-like raw value: its text, lower-cased
    and trimmed, looked up in [bool_vocab]; a missing value stays absent. *)
Definition bool_text_spec (v : val) : val :=
  match astype_string v with
  | VStr s => bool_vocab (py_strip (py_lower s))
  | _ => VNA
  end.

Definition bool_field (t : table) : option string :=
  match t with
  | Appearance => Some "sunroof"%string
  | Status => Some "cleared_customs"%string
  | _ => None
  end.

Definition appearance_sample : frame :=
  frame_of appearance_cols
    [[VInt 1; VStr "sedan"; VStr "red"; VStr "cloth"; VStr "Yes"];
     [VInt 2; VStr "suv"; VStr "black"; VStr "leather"; VStr " 0 "];
     [VInt 3; VNA; VNA; VNA; VStr "TRUE"];
     [VInt 4; VNA; VNA; VNA; VStr "maybe"]].

(** One year with a fractional part, as in a float column. *)
Definition pricing_fractional_year : frame :=
  frame_of ["listing_id"; "year"]%string
    [[VInt 1; VFloat (Qmake 4003 2)]; [VInt 2; VInt 2010]].

(** The batch [rows[start : start + B]]. *)
Definition chunk {A} (B : nat) (rs : list A) (start : nat) : list A :=
  firstn B (skipn start rs).

(** The row pages of the insert statements of a trace, in order. *)
Definition exec_pages (t : list event) : list (list tuple) :=
  flat_map (fun ev => match ev with EExec _ _ page => [page] | _ => [] end) t.

Definition sample_env : db :=
  mk_db None None None (fun _ _ => None) None None None.

Definition sample_tuples (n : nat) : list tuple :=
  List.map (fun i => [PyPrim (PInt (Z.of_nat i))]) (seq 0 n).

(** The events one load of [table] contributes: its insert statements and
    its log lines. *)
Definition table_event (table : string) (ev : event) : Prop :=
  match ev with
  | EExec t _ _ => t = table
  | ELog (LBatch t _ _ _) => t = table
  | ELog (LZeroRows t) => t = table
  | _ => False
  end.

Definition table_events (table : string) (evs : list event) : Prop :=
  evs <> [] /\ Forall (table_event table) evs.

Definition sample_inputs : inputs :=
  mk_inputs
    (frame_of core_cols [[VInt 1; VStr " https://cars.example/1 "]; [VStr "2"; VStr "u2"]])
    (frame_of pricing_cols [[VInt 1; VInt 9500; VInt 2015; VInt 120000]])
    (frame_of vehicle_cols [[VInt 1; VStr "Toyota"; VStr "Camry "]])
    (frame_of specs_cols [[VInt 1; VFloat (Qmake 5 2); VStr "petrol"; VNA; VNA; VNA; VNA; VNA]])
    (frame_of appearance_cols [[VInt 1; VNA; VStr "black"; VNA; VStr "Yes"]])
    (frame_of status_cols []).

(** The state in which the [try] block of main starts. *)
Definition after_cleaning (cs : inputs) : st :=
  mk_st [ELog (LAfterCleaning
                 (List.map (fun df => length (rows df))
                    [in_core cs; in_pricing cs; in_vehicle cs; in_specs cs;
                     in_appearance cs; in_status cs]))] false.

(** What the [except] and [finally] clauses add after the failure log line:
    with an open connection, one rollback (logged only when it succeeds)
    and the close; without one, nothing. *)
Definition rollback_tail (env : db) (opened : bool) : list event :=
  if opened
  then ERollback :: (match rollback_fails env with None => [ELog LRolledBack] | Some _ => [] end)
         ++ [EClose]
  else [].

Definition preserves_conn {A} (m : M A) : Prop :=
  forall s r s', m s = (r, s') -> conn s' = conn s.

(** A database whose Core insert and rollback both raise. *)
Definition env_rollback_fails : db :=
  mk_db None None None
    (fun t _ => if String.eqb t "core" then Some (DbError 1) else None)
    None (Some (DbError 2)) None.

(** A database that cannot be connected to. *)
Definition env_connect_fails : db :=
  mk_db (Some (DbError 3)) None None (fun _ _ => None) None None None.

(** The cleaned sample inputs. *)
Definition sample_cleaned : inputs :=
  match prepare the_year sample_inputs with Ok cs => cs | Err _ => sample_inputs end.




Definition vehicle_no_key : frame :=
  frame_of ["id"; "make"] [[VInt 1; VStr "Kia"]].

Definition core_no_url : frame :=
  frame_of ["listing_id"; "link"] [[VInt 1; VStr "http://a"]].

Definition specs_sample : frame :=
  frame_of specs_cols
    [[VInt 1; VStr "2.5"; VStr "petrol"; VNA; VNA; VNA; VInt (-17); VNA]].

(** The plain Python value that holds the content of a cell: None for a
    missing cell, otherwise the int, float, str or bool. *)
Definition py_plain (v : val) : pyval :=
  match v with
  | VNA => PyNone
  | VInt z => PyPrim (PInt z)
  | VFloat q => PyPrim (PFloat q)
  | VStr s => PyPrim (PStr s)
  | VBool b => PyPrim (PBool b)
  end.

Definition env_core_fails : db :=
  mk_db None None None
    (fun t _ => if String.eqb t "core" then Some (DbError 7) else None) None None None.

(** [spans] cuts the interval [a, n) into consecutive nonempty pieces of
    at most [k] positions each. *)
Fixpoint spans_tile (k a n : nat) (spans : list (nat * nat)) : Prop :=
  match spans with
  | [] => a = n
  | (x, y) :: rest => x = a /\ (a < y <= a + k)%nat /\ spans_tile k y n rest
  end.

(** The events the [try] block of main can produce itself. *)
Definition body_event (ev : event) : Prop :=
  match ev with
  | EClose | ERollback | ELog LRolledBack | ELog (LInsertFailed _)
  | ELog (LAfterCleaning _) => False
  | _ => True
  end.

(** What main adds after the [try] block ends with [r]. *)
Definition run_tail (env : db) (r : result unit) (opened : bool) : list event :=
  (match r with
   | Ok _ => []
   | Err e => ELog (LInsertFailed e) ::
                (if opened
                 then ERollback :: (match rollback_fails env with
                                    | None => [ELog LRolledBack] | Some _ => [] end)
                 else [])
   end) ++ (if opened then [EClose] else []).

Definition emits_only (P : event -> Prop) {A} (m : M A) : Prop :=
  forall s r s', m s = (r, s') -> exists new, trace s' = trace s ++ new /\ Forall P new.

Definition fails_only (P : event -> Prop) {A} (m : M A) : Prop :=
  forall s e s', m s = (Err e, s') -> exists new, trace s' = trace s ++ new /\ Forall P new.


(** An environment where PGUSER is set to the empty string. *)
Definition env_empty_user : gmap string string :=
  <["PGHOST" := "db"]> (<["PGDATABASE" := "cars"]>
    (<["PGPASSWORD" := "pw"]> (<["PGUSER" := EmptyString]> ∅))).

(* ================================================================== *)
(** * Proofs *)

(** ** The cleaners as row functions *)

Section RowFunctions.

Lemma has_col_eq df1 df2 : columns df1 = columns df2 -> has_col df1 = has_col df2.
Proof. intros H. unfold has_col. rewrite H. reflexivity. Qed.

Lemma drop_duplicates_ok c df df' :
  drop_duplicates c df = Ok df' ->
  columns df' = columns df /\ rows df' = dedup_rows c [] (rows df).
Proof.
  unfold drop_duplicates. destruct (has_col df c); intros H; inversion H; auto.
Qed.

Lemma assign_ok c f df df' :
  assign c f df = Ok df' ->
  columns df' = columns df /\ rows df' = List.map (update_row c f) (rows df).
Proof.
  unfold assign. destruct (has_col df c); intros H; inversion H; auto.
Qed.

Lemma loc_set_na_ok c mask df df' :
  loc_set_na c mask df = Ok df' ->
  columns df' = columns df /\ rows df' = List.map (update_row c (mask_na mask)) (rows df).
Proof. apply assign_ok. Qed.

Lemma map_rows_res_ok c f rs rs' :
  map_rows_res c f rs = Ok rs' -> rs' = List.map (update_row c (force f)) rs.
Proof.
  revert rs'. induction rs as [|[l r] rest IH]; intros rs' H; simpl in H.
  - inversion H. reflexivity.
  - destruct (f (cell r c)) as [v|e] eqn:Ef; simpl in H; [|discriminate].
    destruct (map_rows_res c f rest) as [rest'|e] eqn:Er; simpl in H; [|discriminate].
    inversion H; subst. simpl. unfold update_row, force. simpl. rewrite Ef.
    rewrite (IH rest' eq_refl). reflexivity.
Qed.

Lemma assign_res_ok c f df df' :
  assign_res c f df = Ok df' ->
  columns df' = columns df /\ rows df' = List.map (update_row c (force f)) (rows df).
Proof.
  unfold assign_res. destruct (has_col df c); intros H; [|discriminate].
  destruct (map_rows_res c f (rows df)) as [rs|e] eqn:E; simpl in H; [|discriminate].
  inversion H; subst. simpl. split; [reflexivity|]. eapply map_rows_res_ok; eauto.
Qed.

Lemma dropna_ok cs df df' :
  dropna cs df = Ok df' ->
  columns df' = columns df /\ rows df' = List.filter (notna_row cs) (rows df).
Proof.
  unfold dropna. destruct (List.filter _ cs); intros H; inversion H; auto.
Qed.

Lemma strip_cols_ok cs df df' :
  strip_cols cs df = Ok df' ->
  columns df' = columns df /\ rows df' = List.map (strip_row (has_col df) cs) (rows df).
Proof.
  revert df. induction cs as [|c rest IH]; intros df H; simpl in H.
  - inversion H; subst. split; [reflexivity|]. unfold strip_row. simpl.
    symmetry. apply map_id.
  - destruct (has_col df c) eqn:Hc.
    + destruct (assign c _ df) as [df1|e] eqn:E; simpl in H; [|discriminate].
      apply assign_ok in E as [Hc1 Hr1].
      apply IH in H as [Hc2 Hr2]. rewrite (has_col_eq _ _ Hc1) in Hr2.
      split; [congruence|]. rewrite Hr2, Hr1, map_map.
      apply map_ext. intros r. unfold strip_row. simpl. rewrite Hc. reflexivity.
    + simpl in H. apply IH in H as [Hc2 Hr2]. split; [assumption|].
      rewrite Hr2. apply map_ext. intros r. unfold strip_row. simpl. rewrite Hc.
      reflexivity.
Qed.

End RowFunctions.

Ltac crunch :=
  repeat match goal with
  | H : res_bind ?m _ = Ok _ |- _ =>
      let E := fresh "E" in destruct m eqn:E; simpl in H; [|discriminate H]
  | H : (if ?b then _ else _) = Ok _ |- _ =>
      let Hb := fresh "Hb" in destruct b eqn:Hb
  | H : Ok _ = Ok _ |- _ => inversion H; subst; clear H
  | H : drop_duplicates _ _ = Ok _ |- _ => apply drop_duplicates_ok in H as [? ?]
  | H : assign_res _ _ _ = Ok _ |- _ => apply assign_res_ok in H as [? ?]
  | H : loc_set_na _ _ _ = Ok _ |- _ => apply loc_set_na_ok in H as [? ?]
  | H : assign _ _ _ = Ok _ |- _ => apply assign_ok in H as [? ?]
  | H : strip_cols _ _ = Ok _ |- _ => apply strip_cols_ok in H as [? ?]
  | H : dropna _ _ = Ok _ |- _ => apply dropna_ok in H as [? ?]
  end.

(** Rewrites every [has_col] of an intermediate frame into [has_col] of the
    input frame and every [rows] into its expression. *)
Ltac normalise :=
  repeat match goal with
  | H : columns ?a = columns ?b |- _ =>
      try rewrite (has_col_eq _ _ H) in *; try rewrite H in *; clear H
  end;
  repeat match goal with
  | H : rows ?x = _ |- context [rows ?x] => rewrite H; clear H
  end.

Lemma clean_pricing_ok cy df df' :
  clean_pricing cy df = Ok df' ->
  columns df' = columns df /\
  rows df' = List.filter (notna_row ["listing_id"])
               (List.map (pricing_row cy (has_col df))
                  (dedup_rows "listing_id" [] (rows df))).
Proof.
  unfold clean_pricing. intros H. crunch.
  all: split; [congruence|]; normalise.
  all: rewrite ?map_map; f_equal; apply map_ext; intros r; unfold pricing_row.
  all: repeat match goal with H : has_col _ _ = _ |- _ => rewrite H; clear H end.
  all: reflexivity.
Qed.

Ltac finish_shape :=
  split; [congruence|]; normalise;
  rewrite ?map_map; f_equal; apply map_ext; intros r;
  unfold pricing_row, core_row, vehicle_row, specs_row, appearance_row, status_row, key_row,
    strip_row, strip_fn; simpl;
  repeat match goal with H : has_col _ _ = _ |- _ => rewrite H; clear H end;
  reflexivity.

(** Every cleaner, when it returns, keeps the rows of the de-duplicated
    input that pass [dropna], each converted by its row function. *)
Lemma clean_ok cy t df df' :
  clean cy t df = Ok df' ->
  columns df' = columns df /\
  rows df' = List.filter (notna_row (required_cols t))
               (List.map (clean_row cy t (has_col df))
                  (dedup_rows "listing_id" [] (rows df))).
Proof.
  destruct t; simpl.
  - unfold clean_core. intros H. crunch. all: finish_shape.
  - apply clean_pricing_ok.
  - unfold clean_vehicle. intros H. crunch. all: finish_shape.
  - unfold clean_specs. intros H. crunch. all: finish_shape.
  - unfold clean_appearance. intros H. crunch. all: finish_shape.
  - unfold clean_status. intros H. crunch. all: finish_shape.
Qed.

(** ** Cells of converted rows *)

Lemma fst_update_row c f r : fst (update_row c f r) = fst r.
Proof. reflexivity. Qed.

Lemma cell_update_row c f r c' :
  cell (snd (update_row c f r)) c' =
  if String.eqb c c' then f (cell (snd r) c) else cell (snd r) c'.
Proof.
  unfold update_row, cell. simpl. destruct (String.eqb_spec c c') as [<-|Hne].
  - rewrite lookup_insert_eq. reflexivity.
  - rewrite lookup_insert_ne by exact Hne. reflexivity.
Qed.

Lemma fst_strip_row hc cs r : fst (strip_row hc cs r) = fst r.
Proof.
  unfold strip_row. revert r. induction cs as [|c rest IH]; intros r; simpl; [reflexivity|].
  rewrite IH. destruct (hc c); reflexivity.
Qed.

Lemma cell_strip_row_other hc cs r c :
  ~ In c cs -> cell (snd (strip_row hc cs r)) c = cell (snd r) c.
Proof.
  unfold strip_row. revert r. induction cs as [|c' rest IH]; intros r Hin; simpl; [reflexivity|].
  rewrite IH by (simpl in Hin; tauto). destruct (hc c'); [|reflexivity].
  rewrite cell_update_row. destruct (String.eqb_spec c' c); [|reflexivity].
  exfalso. apply Hin. left. assumption.
Qed.

Ltac simp_cells :=
  repeat first
    [ rewrite cell_update_row
    | rewrite cell_strip_row_other by (simpl; intuition discriminate)
    | rewrite fst_strip_row
    | rewrite fst_update_row ];
  simpl String.eqb; cbv beta iota.

Lemma fst_clean_row cy t hc r : fst (clean_row cy t hc r) = fst r.
Proof.
  destruct t; unfold clean_row;
    unfold pricing_row, core_row, vehicle_row, specs_row, appearance_row, status_row, key_row;
    repeat match goal with |- context [if hc ?c then _ else _] => destruct (hc c) end;
    simp_cells; reflexivity.
Qed.

Lemma key_clean_row cy t hc r :
  cell (snd (clean_row cy t hc r)) "listing_id" = force to_key (cell (snd r) "listing_id").
Proof.
  destruct t; unfold clean_row;
    unfold pricing_row, core_row, vehicle_row, specs_row, appearance_row, status_row, key_row;
    repeat match goal with |- context [if hc ?c then _ else _] => destruct (hc c) end;
    simp_cells; reflexivity.
Qed.

(** ** Order *)

Lemma dedup_rows_sublist c seen rs : dedup_rows c seen rs `sublist_of` rs.
Proof.
  revert seen. induction rs as [|r rest IH]; intros seen; simpl; [constructor|].
  destruct (existsb _ seen); constructor; apply IH.
Qed.

Lemma filter_map_comm {A B} (p : B -> bool) (g : A -> B) (l : list A) :
  List.filter p (List.map g l) = List.map g (List.filter (fun a => p (g a)) l).
Proof.
  induction l as [|a rest IH]; simpl; [reflexivity|].
  destruct (p (g a)); simpl; rewrite IH; reflexivity.
Qed.

Lemma filter_sublist {A} (p : A -> bool) (l : list A) : List.filter p l `sublist_of` l.
Proof.
  induction l as [|a rest IH]; simpl; [constructor|].
  destruct (p a); constructor; exact IH.
Qed.

Lemma sublist_trans' {A} (l1 l2 l3 : list A) :
  l1 `sublist_of` l2 -> l2 `sublist_of` l3 -> l1 `sublist_of` l3.
Proof. intros H1 H2. etransitivity; eassumption. Qed.

Lemma tuples_loop_app cols out rs :
  tuples_loop cols out rs =
  out ++ List.map (fun lr => List.map (fun c => to_py (cell_to_py (cell (snd lr) c))) cols) rs.
Proof.
  revert out. induction rs as [|r rest IH]; intros out; simpl.
  - rewrite app_nil_r. reflexivity.
  - rewrite IH, <- app_assoc. reflexivity.
Qed.

(** ** Pairwise facts on lists *)

Lemma sublist_In {A} (l1 l2 : list A) x : l1 `sublist_of` l2 -> In x l1 -> In x l2.
Proof.
  induction 1 as [|y l1 l2 _ IH|y l1 l2 _ IH]; simpl; [tauto| |]; intros Hin.
  - destruct Hin; [left|right; apply IH]; assumption.
  - right. apply IH. assumption.
Qed.






Lemma force_to_key_not_na x v :
  force to_key x = v -> v <> VNA -> to_key x = Ok v /\ exists k, v = VInt k.
Proof.
  unfold force. destruct (to_key x) as [w|e] eqn:E; intros Hv Hna; subst; [|contradiction].
  split; [reflexivity|]. unfold to_key, astype_Int64 in E.
  destruct (to_numeric x); try discriminate.
  - inversion E; subst. contradiction.
  - inversion E; eauto.
  - destruct (_ =? 0); inversion E; eauto.
  - inversion E; eauto.
Qed.

Lemma notna_required_key t lr :
  notna_row (required_cols t) lr = true -> cell (snd lr) "listing_id" <> VNA.
Proof.
  unfold notna_row. intros H Hna. destruct t; simpl in H; rewrite Hna in H; discriminate H.
Qed.

(** ** Claims *)

(** C10: every cleaner keeps the surviving rows in their source order
    (the surviving rows come from a subsequence of the input rows, index
    labels preserved), and [rows_as_tuples] emits one tuple per row of the
    cleaned frame, in that order. *)
Theorem clean_preserves_order (cy : Z) (t : table) (df df' : frame) :
  clean cy t df = Ok df' ->
  (exists kept, kept `sublist_of` rows df /\ List.map fst kept = List.map fst (rows df')) /\
  (forall cols out, rows_as_tuples df' cols = Ok out ->
     out = List.map (fun lr => List.map (fun c => to_py (cell_to_py (cell (snd lr) c))) cols)
             (rows df')).
Proof.
  intros H. apply clean_ok in H as [_ Hr]. split.
  - eexists. split.
    + eapply sublist_trans'; [apply filter_sublist|apply dedup_rows_sublist].
    + rewrite Hr, filter_map_comm, map_map. apply map_ext. intros r.
      symmetry. apply fst_clean_row.
  - intros cols out. unfold rows_as_tuples.
    destruct (List.filter _ cols); intros Hout; inversion Hout; subst.
    rewrite tuples_loop_app. reflexivity.
Qed.


(** *** Concrete inputs *)

Lemma clean_preserves_order_witness :
  clean the_year Core core_spellings = Ok (cleaned Core core_spellings) /\
  ((exists kept, kept `sublist_of` rows core_spellings /\
     List.map fst kept = List.map fst (rows (cleaned Core core_spellings))) /\
   (forall cols out, rows_as_tuples (cleaned Core core_spellings) cols = Ok out ->
     out = List.map (fun lr => List.map (fun c => to_py (cell_to_py (cell (snd lr) c))) cols)
             (rows (cleaned Core core_spellings)))).
Proof.
  split; [vm_compute; reflexivity|].
  apply (clean_preserves_order the_year Core). vm_compute. reflexivity.
Defined.



(** ** Cells of the cleaned rows *)

Lemma in_clean_rows cy t df df' r' :
  clean cy t df = Ok df' -> In r' (rows df') ->
  exists r, In r (rows df) /\ r' = clean_row cy t (has_col df) r /\
            notna_row (required_cols t) r' = true.
Proof.
  intros H Hin. apply clean_ok in H as [_ Hr]. rewrite Hr in Hin.
  apply filter_In in Hin as [Hin Hnn]. apply in_map_iff in Hin as [r [<- Hr']].
  exists r. split; [|split; [reflexivity|exact Hnn]].
  eapply sublist_In; [apply dedup_rows_sublist|exact Hr'].
Qed.

(** C4 (amended): every cleaned Core row has a listing_id and a url, and
    the url is the trimmed text of the source row's url; a source row with
    an absent url therefore leaves no row behind. *)
Theorem clean_core_url (df df' : frame) :
  clean_core df = Ok df' ->
  forall r', In r' (rows df') ->
  exists r, In r (rows df) /\ fst r = fst r' /\
    cell (snd r') "url" = str_strip (astype_string (cell (snd r) "url")) /\
    cell (snd r') "url" <> VNA /\ cell (snd r') "listing_id" <> VNA.
Proof.
  intros H r' Hin.
  destruct (in_clean_rows 0 Core _ _ _ H Hin) as [r [Hr [-> Hnn]]].
  exists r. split; [exact Hr|]. split; [symmetry; apply fst_clean_row|].
  unfold notna_row in Hnn. cbn [required_cols forallb] in Hnn.
  apply andb_true_iff in Hnn as [Hk Hu]. apply andb_true_iff in Hu as [Hu _].
  apply negb_true_iff in Hk, Hu.
  split; [|split; intros E; [rewrite E in Hu|rewrite E in Hk]; discriminate].
  cbn [clean_row]. unfold core_row, key_row. simp_cells. reflexivity.
Qed.

(** C4 counterexample: a whitespace-only url is kept, as the empty string. *)
Lemma clean_core_keeps_blank_url :
  res_map (fun df => List.map (fun lr => (cell (snd lr) "listing_id", cell (snd lr) "url")) (rows df))
    (clean_core core_blank_url) = Ok [(VInt 2, VStr "")].
Proof. vm_compute. reflexivity. Qed.

Lemma clean_core_url_witness :
  clean_core core_blank_url = Ok (cleaned Core core_blank_url) /\
  (forall r', In r' (rows (cleaned Core core_blank_url)) ->
   exists r, In r (rows core_blank_url) /\ fst r = fst r' /\
    cell (snd r') "url" = str_strip (astype_string (cell (snd r) "url")) /\
    cell (snd r') "url" <> VNA /\ cell (snd r') "listing_id" <> VNA).
Proof.
  split; [vm_compute; reflexivity|].
  apply clean_core_url. vm_compute. reflexivity.
Defined.

Lemma q_lt_spec a b : q_lt a b = true <-> (a < b)%Q.
Proof. unfold q_lt, Qlt. apply Z.ltb_lt. Qed.

Lemma pricing_row_price cy hc r :
  cell (snd (pricing_row cy hc r)) "price" =
  if hc "price" then mask_na negative (to_numeric (cell (snd r) "price"))
  else cell (snd r) "price".
Proof.
  unfold pricing_row, key_row.
  destruct (hc "price"), (hc "year"), (hc "mileage"); simp_cells; reflexivity.
Qed.

Lemma pricing_row_year cy hc r :
  cell (snd (pricing_row cy hc r)) "year" =
  if hc "year" then mask_na (year_out_of_range cy) (force to_key (cell (snd r) "year"))
  else cell (snd r) "year".
Proof.
  unfold pricing_row, key_row.
  destruct (hc "price"), (hc "year"), (hc "mileage"); simp_cells; reflexivity.
Qed.

Lemma pricing_row_mileage cy hc r :
  cell (snd (pricing_row cy hc r)) "mileage" =
  if hc "mileage" then mask_na negative (force to_key (cell (snd r) "mileage"))
  else cell (snd r) "mileage".
Proof.
  unfold pricing_row, key_row.
  destruct (hc "price"), (hc "year"), (hc "mileage"); simp_cells; reflexivity.
Qed.

(** C5: in the cleaned Pricing table, a price is the number parsed from the
    source price, or absent when that number is negative; a year is the
    source year as an integer, or absent when it is below 1950 or above the
    current year; a mileage is the source mileage as an integer, or absent
    when it is negative. Nothing is clamped or defaulted. *)
Theorem clean_pricing_domains (cy : Z) (df df' : frame) :
  clean_pricing cy df = Ok df' ->
  forall r', In r' (rows df') ->
  exists r, In r (rows df) /\ fst r = fst r' /\
    (has_col df "price" = true ->
       let p := to_numeric (cell (snd r) "price") in
       (forall q, num_of p = Some q -> (q < 0)%Q -> cell (snd r') "price" = VNA) /\
       ((forall q, num_of p = Some q -> (0 <= q)%Q) -> cell (snd r') "price" = p)) /\
    (has_col df "year" = true ->
       (to_key (cell (snd r) "year") = Ok VNA -> cell (snd r') "year" = VNA) /\
       forall z, to_key (cell (snd r) "year") = Ok (VInt z) ->
         ((z < 1950 \/ cy < z) -> cell (snd r') "year" = VNA) /\
         (1950 <= z <= cy -> cell (snd r') "year" = VInt z)) /\
    (has_col df "mileage" = true ->
       (to_key (cell (snd r) "mileage") = Ok VNA -> cell (snd r') "mileage" = VNA) /\
       forall z, to_key (cell (snd r) "mileage") = Ok (VInt z) ->
         (z < 0 -> cell (snd r') "mileage" = VNA) /\
         (0 <= z -> cell (snd r') "mileage" = VInt z)).
Proof.
  intros H r' Hin.
  destruct (in_clean_rows cy Pricing _ _ _ H Hin) as [r [Hr [-> _]]].
  exists r. split; [exact Hr|]. split; [symmetry; apply fst_clean_row|].
  cbn [clean_row]. rewrite pricing_row_price, pricing_row_year, pricing_row_mileage.
  split; [|split].
  - intros Hc. rewrite Hc. unfold mask_na, negative. cbv zeta. split.
    + intros q Hq Hlt. rewrite Hq. apply q_lt_spec in Hlt. rewrite Hlt. reflexivity.
    + intros Hge. destruct (num_of (to_numeric (cell (snd r) "price"))) as [q|] eqn:Hq;
        [|reflexivity].
      destruct (q_lt q 0) eqn:Hlt; [|reflexivity].
      apply q_lt_spec in Hlt. specialize (Hge q eq_refl). exfalso.
      apply (Qlt_not_le _ _ Hlt Hge).
  - intros Hc. rewrite Hc. unfold force, mask_na. split.
    + intros E. rewrite E. reflexivity.
    + intros z E. rewrite E. unfold year_out_of_range, q_lt. simpl. rewrite !Z.mul_1_r.
      split; intros Hz.
      * destruct Hz as [Hz|Hz]; apply Z.ltb_lt in Hz; rewrite Hz; [reflexivity|].
        rewrite orb_true_r. reflexivity.
      * destruct Hz as [Hz1 Hz2]. apply Z.ltb_ge in Hz1, Hz2. rewrite Hz1, Hz2. reflexivity.
  - intros Hc. rewrite Hc. unfold force, mask_na. split.
    + intros E. rewrite E. reflexivity.
    + intros z E. rewrite E. unfold negative, q_lt. simpl. rewrite Z.mul_1_r, Z.mul_0_l.
      split; intros Hz; [apply Z.ltb_lt in Hz|apply Z.ltb_ge in Hz]; rewrite Hz; reflexivity.
Qed.

(** The values of the spec's examples: price -5, year 1899 and 2999 and
    mileage -1 all become absent; 7.5, 0, 2001 and 5 are kept. *)
Example clean_pricing_sample :
  res_map (fun df => List.map (fun lr => List.map (cell (snd lr)) pricing_cols) (rows df))
    (clean_pricing the_year pricing_sample)
  = Ok [[VInt 1; VNA; VNA; VNA];
        [VInt 2; VFloat (Qmake 75 10); VNA; VInt 5];
        [VInt 3; VFloat 0; VInt 2001; VNA]].
Proof. vm_compute. reflexivity. Qed.

Lemma clean_pricing_domains_witness :
  clean_pricing the_year pricing_sample = Ok (cleaned Pricing pricing_sample) /\
  forall r', In r' (rows (cleaned Pricing pricing_sample)) ->
  exists r, In r (rows pricing_sample) /\ fst r = fst r' /\
    (has_col pricing_sample "price" = true ->
       let p := to_numeric (cell (snd r) "price") in
       (forall q, num_of p = Some q -> (q < 0)%Q -> cell (snd r') "price" = VNA) /\
       ((forall q, num_of p = Some q -> (0 <= q)%Q) -> cell (snd r') "price" = p)) /\
    (has_col pricing_sample "year" = true ->
       (to_key (cell (snd r) "year") = Ok VNA -> cell (snd r') "year" = VNA) /\
       forall z, to_key (cell (snd r) "year") = Ok (VInt z) ->
         ((z < 1950 \/ the_year < z) -> cell (snd r') "year" = VNA) /\
         (1950 <= z <= the_year -> cell (snd r') "year" = VInt z)) /\
    (has_col pricing_sample "mileage" = true ->
       (to_key (cell (snd r) "mileage") = Ok VNA -> cell (snd r') "mileage" = VNA) /\
       forall z, to_key (cell (snd r) "mileage") = Ok (VInt z) ->
         (z < 0 -> cell (snd r') "mileage" = VNA) /\
         (0 <= z -> cell (snd r') "mileage" = VInt z)).
Proof.
  split; [vm_compute; reflexivity|].
  apply clean_pricing_domains. vm_compute. reflexivity.
Defined.

Lemma map_dict_vocab s : map_dict (VStr s) = bool_vocab s.
Proof.
  unfold map_dict, bool_vocab, bool_dict.
  destruct (String.eqb_spec s "true") as [->|H1]; [reflexivity|].
  destruct (String.eqb_spec s "false") as [->|H2]; [reflexivity|].
  destruct (String.eqb_spec s "1") as [->|H3]; [reflexivity|].
  destruct (String.eqb_spec s "0") as [->|H4]; [reflexivity|].
  destruct (String.eqb_spec s "yes") as [->|H5]; [reflexivity|].
  destruct (String.eqb_spec s "no") as [->|H6]; [reflexivity|].
  cbn [List.find fst snd existsb]. rewrite !(String.eqb_sym _ s).
  repeat match goal with
         | H : s <> ?x |- _ => rewrite (proj2 (String.eqb_neq s x) H); clear H
         end.
  reflexivity.
Qed.

Lemma bool_cell_spec v : bool_cell v = bool_text_spec v.
Proof.
  unfold bool_cell, bool_text_spec. destruct (astype_string v); try reflexivity.
  simpl. apply map_dict_vocab.
Qed.

Lemma clean_row_bool_field cy t hc r c :
  bool_field t = Some c -> hc c = true ->
  cell (snd (clean_row cy t hc r)) c = bool_cell (cell (snd r) c).
Proof.
  destruct t; cbn [bool_field clean_row]; intros Hf Hc; inversion Hf; subst.
  all: unfold appearance_row, status_row; rewrite Hc.
  - unfold appearance_row, key_row. simp_cells. reflexivity.
  - unfold status_row, key_row. simp_cells. reflexivity.
Qed.

(** C6: the boolean-like fields (sunroof of Appearance, cleared_customs of
    Status) hold, in every cleaned row, the vocabulary reading of the
    lower-cased, trimmed text of the source value; "Yes", "0", "TRUE" and
    "maybe" read as true, false, true and absent. *)
Theorem clean_bool_fields (cy : Z) (t : table) (c : string) (df df' : frame) :
  (bool_cell (VStr "Yes") = VBool true /\ bool_cell (VStr "0") = VBool false /\
   bool_cell (VStr "TRUE") = VBool true /\ bool_cell (VStr "maybe") = VNA) /\
  (bool_field t = Some c -> has_col df c = true -> clean cy t df = Ok df' ->
   forall r', In r' (rows df') ->
   exists r, In r (rows df) /\ fst r = fst r' /\
     cell (snd r') c = bool_text_spec (cell (snd r) c)).
Proof.
  split; [vm_compute; repeat split|].
  intros Hf Hc H r' Hin.
  destruct (in_clean_rows cy t _ _ _ H Hin) as [r [Hr [-> _]]].
  exists r. split; [exact Hr|]. split; [symmetry; apply fst_clean_row|].
  rewrite (clean_row_bool_field cy t _ r c Hf Hc). apply bool_cell_spec.
Qed.

Lemma clean_bool_fields_witness :
  clean the_year Appearance appearance_sample = Ok (cleaned Appearance appearance_sample) /\
  (bool_cell (VStr "Yes") = VBool true /\ bool_cell (VStr "0") = VBool false /\
   bool_cell (VStr "TRUE") = VBool true /\ bool_cell (VStr "maybe") = VNA) /\
  (forall r', In r' (rows (cleaned Appearance appearance_sample)) ->
   exists r, In r (rows appearance_sample) /\ fst r = fst r' /\
     cell (snd r') "sunroof" = bool_text_spec (cell (snd r) "sunroof")).
Proof.
  split; [vm_compute; reflexivity|]. split.
  - exact (proj1 (clean_bool_fields the_year Appearance "sunroof" appearance_sample
                    (cleaned Appearance appearance_sample))).
  - apply (proj2 (clean_bool_fields the_year Appearance "sunroof" appearance_sample
                    (cleaned Appearance appearance_sample)));
      vm_compute; reflexivity.
Defined.

(** C9: [to_py] is total on scalars (a Rocq function), returns None exactly
    for the missing-value markers, unwraps numpy scalars through [item()],
    always returns None or a plain primitive, and is idempotent. *)
Theorem to_py_normalises (x : pyval) :
  (to_py x = PyNone <-> pd_isna x = true) /\
  (forall p, x = NpScalar p -> to_py x = PyPrim p) /\
  (to_py x = PyNone \/ exists p, to_py x = PyPrim p) /\
  to_py (to_py x) = to_py x.
Proof.
  destruct x as [| | |p|p|]; simpl;
    (split; [split; intros H; try reflexivity; discriminate H|]);
    (split; [intros p' Hp; first [discriminate Hp | injection Hp as ->; reflexivity]|]);
    split; eauto.
Qed.

(** C3: the year 2001.5 is numeric but not an integer; astype("Int64")
    raises TypeError and the whole of clean_pricing fails. *)
Theorem clean_pricing_fractional_year_raises :
  clean_pricing the_year pricing_fractional_year = Err TypeError.
Proof. vm_compute. reflexivity. Qed.

(** ** The batch loader *)

Lemma bind_ok {A B} (m : M A) (k : A -> M B) s b s' :
  m_bind m k s = (Ok b, s') ->
  exists a s1, m s = (Ok a, s1) /\ k a s1 = (Ok b, s').
Proof.
  unfold m_bind. destruct (m s) as [[a|e] s1]; intros H.
  - eauto.
  - discriminate H.
Qed.

Lemma db_call_ok ev o s s' :
  db_call ev o s = (Ok tt, s') ->
  o = None /\ trace s' = trace s ++ [ev] /\ conn s' = conn s.
Proof.
  unfold db_call, m_bind, emit. destruct o as [e|]; simpl; intros H.
  - discriminate H.
  - injection H as <-. auto.
Qed.

Lemma log_ok l s s' :
  log l s = (Ok tt, s') -> trace s' = trace s ++ [ELog l] /\ conn s' = conn s.
Proof. unfold log, emit. intros H. injection H as <-. auto. Qed.

Lemma for_each_ok {A} (xs : list A) (f : A -> M unit) (g : A -> list event) s s' :
  (forall x, In x xs -> forall s0 s1, f x s0 = (Ok tt, s1) ->
     trace s1 = trace s0 ++ g x /\ conn s1 = conn s0) ->
  for_each xs f s = (Ok tt, s') ->
  trace s' = trace s ++ concat (List.map g xs) /\ conn s' = conn s.
Proof.
  revert s. induction xs as [|x rest IH]; intros s Hf H; simpl in *.
  - injection H as <-. rewrite app_nil_r. auto.
  - apply bind_ok in H as ([] & s1 & H1 & H2).
    destruct (Hf x (or_introl eq_refl) _ _ H1) as [T1 C1].
    destruct (IH s1 (fun y Hy => Hf y (or_intror Hy)) H2) as [T2 C2].
    rewrite T2, T1, <- app_assoc. split; congruence.
Qed.

Lemma paginate_whole {A} (b : list A) :
  b <> [] -> paginate (length b) (length b) b = [b].
Proof.
  destruct b as [|x b']; [congruence|]. intros _.
  cbn [length paginate]. rewrite firstn_all2 by (simpl; lia).
  rewrite skipn_all2 by (simpl; lia). destruct (length b'); reflexivity.
Qed.

Lemma py_range_lt fuel start stop step i :
  In i (py_range fuel start stop step) -> (i < stop)%nat.
Proof.
  revert start. induction fuel as [|f IH]; intros start; simpl; [tauto|].
  destruct (start <? stop)%nat eqn:E; simpl; [|tauto].
  apply Nat.ltb_lt in E. intros [<-|H]; eauto.
Qed.

Section Chunks.

Variable A : Type.
Variable B : nat.
Hypothesis B_pos : (0 < B)%nat.
Variable rs : list A.

Lemma chunks_concat fuel st :
  (length rs - st <= fuel)%nat ->
  concat (List.map (chunk B rs) (py_range fuel st (length rs) B)) = skipn st rs.
Proof.
  revert st. induction fuel as [|f IH]; intros st Hf; simpl.
  - rewrite skipn_all2 by lia. reflexivity.
  - destruct (st <? length rs)%nat eqn:E; simpl.
    + rewrite IH by lia. unfold chunk.
      rewrite <- (firstn_skipn B (skipn st rs)) at 2.
      rewrite skipn_skipn. f_equal. f_equal. lia.
    + apply Nat.ltb_ge in E. rewrite skipn_all2 by lia. reflexivity.
Qed.

Lemma chunks_length fuel st :
  (length rs - st <= fuel)%nat ->
  length (py_range fuel st (length rs) B) = ((length rs - st + B - 1) / B)%nat.
Proof.
  revert st. induction fuel as [|f IH]; intros st Hf; simpl.
  - symmetry. apply Nat.div_small. lia.
  - destruct (st <? length rs)%nat eqn:E; simpl.
    + apply Nat.ltb_lt in E. rewrite IH by lia.
      assert (Hd : ((length rs - st + B - 1) = (length rs - st - 1) + 1 * B)%nat) by lia.
      rewrite Hd, Nat.div_add by lia.
      set (d := (length rs - st)%nat) in *.
      assert (Hi : ((length rs - (st + B) + B - 1) / B = (d - 1) / B)%nat).
      { destruct (Nat.le_gt_cases B d) as [Hle|Hgt].
        - f_equal. subst d. lia.
        - rewrite !Nat.div_small by (subst d; lia). reflexivity. }
      rewrite Hi. lia.
    + apply Nat.ltb_ge in E. symmetry. apply Nat.div_small. lia.
Qed.

Lemma chunk_size fuel st i :
  In i (py_range fuel st (length rs) B) -> (0 < length (chunk B rs i) <= B)%nat.
Proof.
  intros Hi. apply py_range_lt in Hi. unfold chunk.
  rewrite length_firstn, length_skipn. lia.
Qed.

End Chunks.

Lemma insert_batches_trace env table cols rs s s' :
  rs <> [] ->
  insert_batches env table cols rs s = (Ok tt, s') ->
  trace s' = trace s ++
    concat (List.map (fun i =>
      [EExec table cols (chunk BATCH_SIZE rs i);
       ELog (LBatch table i (Nat.min (i + BATCH_SIZE) (length rs)) (length rs))])
      (py_range (length rs) 0 (length rs) BATCH_SIZE))
  /\ conn s' = conn s.
Proof.
  intros Hne H. destruct rs as [|r0 rs0] eqn:Ers; [congruence|].
  rewrite <- Ers in *. unfold insert_batches in H. rewrite Ers in H.
  rewrite <- Ers in H. cbv zeta in H.
  eapply for_each_ok; [|exact H].
  intros i Hi s0 s1 Hstep.
  apply bind_ok in Hstep as ([] & s2 & H1 & H2).
  assert (Hb : chunk BATCH_SIZE rs i <> []).
  { pose proof (chunk_size _ BATCH_SIZE ltac:(unfold BATCH_SIZE; lia) rs _ _ _ Hi) as Hs.
    intros E. rewrite E in Hs. simpl in Hs. lia. }
  unfold execute_values in H1. fold (chunk BATCH_SIZE rs i) in H1.
  rewrite paginate_whole in H1 by exact Hb. simpl in H1.
  apply bind_ok in H1 as ([] & s3 & H3 & H4). injection H4 as <-.
  apply db_call_ok in H3 as (_ & T3 & C3). apply log_ok in H2 as [T2 C2].
  rewrite T2, T3, <- app_assoc. split; [reflexivity|congruence].
Qed.

Lemma exec_pages_batches table cols rs (starts : list nat) :
  exec_pages (concat (List.map (fun i =>
      [EExec table cols (chunk BATCH_SIZE rs i);
       ELog (LBatch table i (Nat.min (i + BATCH_SIZE) (length rs)) (length rs))]) starts))
  = List.map (chunk BATCH_SIZE rs) starts.
Proof.
  induction starts as [|i rest IH]; [reflexivity|].
  cbn [List.map concat]. unfold exec_pages in *. rewrite flat_map_app, IH. reflexivity.
Qed.

(** C7: a successful call of the batch loader on [n > 0] tuples issues
    ceil(n / 5000) insert statements; each carries between 1 and 5000
    rows, and their row lists, in the order issued, concatenate to the
    input. *)
Theorem insert_batches_chunks (env : db) (table : string) (cols : list string)
    (rs : list tuple) (s s' : st) :
  rs <> [] ->
  insert_batches env table cols rs s = (Ok tt, s') ->
  exists new, trace s' = trace s ++ new /\
    length (exec_pages new) = ((length rs + BATCH_SIZE - 1) / BATCH_SIZE)%nat /\
    Forall (fun b => (0 < length b <= BATCH_SIZE)%nat) (exec_pages new) /\
    concat (exec_pages new) = rs.
Proof.
  intros Hne H. destruct (insert_batches_trace _ _ _ _ _ _ Hne H) as [T _].
  assert (HB : (0 < BATCH_SIZE)%nat) by (unfold BATCH_SIZE; lia).
  eexists. split; [exact T|]. rewrite exec_pages_batches.
  split; [|split].
  - rewrite length_map, chunks_length by lia. f_equal. lia.
  - apply List.Forall_forall. intros b Hb. apply in_map_iff in Hb as (i & <- & Hi).
    eapply chunk_size; eauto.
  - rewrite chunks_concat by lia. reflexivity.
Qed.

Lemma insert_batches_chunks_witness :
  exists new, trace (snd (insert_batches sample_env "core" ["listing_id"] (sample_tuples 12001)
                                        (mk_st [] false))) = [] ++ new /\
    length (exec_pages new) = 3%nat /\
    Forall (fun b => (0 < length b <= BATCH_SIZE)%nat) (exec_pages new) /\
    concat (exec_pages new) = sample_tuples 12001.
Proof.
  assert (Hok : fst (insert_batches sample_env "core" ["listing_id"] (sample_tuples 12001)
                       (mk_st [] false)) = Ok tt) by (vm_compute; reflexivity).
  destruct (insert_batches sample_env "core" ["listing_id"] (sample_tuples 12001)
              (mk_st [] false)) as [r s'] eqn:E.
  simpl in Hok. subst r.
  destruct (insert_batches_chunks sample_env "core" ["listing_id"] (sample_tuples 12001)
              (mk_st [] false) s' ltac:(vm_compute; discriminate) E)
    as (new & T & L & F & C).
  exists new. simpl. split; [exact T|]. split; [|split; assumption].
  rewrite L. vm_compute. reflexivity.
Defined.

(** ** A successful run of main *)

Lemma lift_ok {A} (r : result A) s a s' :
  lift r s = (Ok a, s') -> r = Ok a /\ s' = s.
Proof. unfold lift. intros H. injection H as -> ->. auto. Qed.

Lemma get_conn_ok env s s' :
  get_conn env s = (Ok tt, s') ->
  connect_fails env = None /\ trace s' = trace s ++ [EConnect] /\ conn s' = true.
Proof.
  unfold get_conn. intros H. apply bind_ok in H as ([] & s1 & H1 & H2).
  apply db_call_ok in H1 as (N & T & _). injection H2 as <-. auto.
Qed.

Lemma with_cursor_ok env body s s' :
  with_cursor env body s = (Ok tt, s') ->
  exists s1 s2, trace s1 = trace s ++ [ECursorOpen] /\ conn s1 = conn s /\
    body s1 = (Ok tt, s2) /\ trace s' = trace s2 ++ [ECursorClose] /\ conn s' = conn s2.
Proof.
  unfold with_cursor. intros H. apply bind_ok in H as ([] & s1 & H1 & H2).
  apply db_call_ok in H1 as (_ & T1 & C1).
  destruct (body s1) as [r s2] eqn:Eb. simpl in H2. injection H2 as -> <-.
  exists s1, s2. auto.
Qed.

Lemma insert_batches_events env table cols rs s s' :
  insert_batches env table cols rs s = (Ok tt, s') ->
  exists evs, trace s' = trace s ++ evs /\ table_events table evs /\ conn s' = conn s.
Proof.
  intros H. destruct rs as [|r0 rs0] eqn:Ers.
  - apply log_ok in H as [T C]. exists [ELog (LZeroRows table)].
    split; [exact T|]. split; [|exact C].
    split; [discriminate|]. repeat constructor.
  - rewrite <- Ers in H. apply insert_batches_trace in H as [T C]; [|congruence].
    eexists. split; [exact T|]. split; [|exact C]. split.
    + rewrite Ers. simpl. discriminate.
    + apply Forall_concat, List.Forall_forall. intros l Hl.
      apply in_map_iff in Hl as (i & <- & _). repeat constructor.
Qed.

Lemma load_ok env table cols df s s' :
  load env table cols df s = (Ok tt, s') ->
  exists evs, trace s' = trace s ++ evs /\ table_events table evs /\ conn s' = conn s.
Proof.
  unfold load. intros H. apply bind_ok in H as (rs & s1 & H1 & H2).
  apply lift_ok in H1 as [_ ->]. eapply insert_batches_events; eauto.
Qed.

Lemma try_pass_eq (m : M unit) s : try_pass m s = (Ok tt, snd (m s)).
Proof. unfold try_pass. destruct (m s). reflexivity. Qed.

Lemma on_error_fails env e s :
  exists s', on_error env e s = (Err e, s').
Proof.
  unfold on_error, m_bind, log, emit, raise, ret. cbn -[try_pass].
  destruct (conn s); [rewrite try_pass_eq|]; eauto.
Qed.

Lemma try_body_ok env c p v sp a st0 s s' :
  try_body env c p v sp a st0 s = (Ok tt, s') ->
  exists tc tp tv ts ta tst,
    trace s' = trace s ++ [EConnect; EAutocommitOff; ECursorOpen]
      ++ tc ++ tp ++ tv ++ ts ++ ta ++ tst ++ [ECursorClose; ECommit; ELog LCommitted] /\
    table_events "core" tc /\ table_events "pricing" tp /\
    table_events "vehicle" tv /\ table_events "specs" ts /\
    table_events "appearance" ta /\ table_events "status" tst /\
    conn s' = true.
Proof.
  unfold try_body. intros H.
  apply bind_ok in H as ([] & s1 & H1 & H). apply get_conn_ok in H1 as (_ & T1 & C1).
  apply bind_ok in H as ([] & s2 & H2 & H). apply db_call_ok in H2 as (_ & T2 & C2).
  apply bind_ok in H as ([] & s3 & H3 & H).
  apply with_cursor_ok in H3 as (s4 & s5 & T4 & C4 & Hb & T3 & C3).
  apply bind_ok in Hb as ([] & s6 & L1 & Hb). apply load_ok in L1 as (tc & Tc & Ec & Cc).
  apply bind_ok in Hb as ([] & s7 & L2 & Hb). apply load_ok in L2 as (tp & Tp & Ep & Cp).
  apply bind_ok in Hb as ([] & s8 & L3 & Hb). apply load_ok in L3 as (tv & Tv & Ev & Cv).
  apply bind_ok in Hb as ([] & s9 & L4 & Hb). apply load_ok in L4 as (ts & Ts & Es & Cs).
  apply bind_ok in Hb as ([] & s10 & L5 & Hb). apply load_ok in L5 as (ta & Ta & Ea & Ca).
  apply load_ok in Hb as (tst & Tst & Est & Cst).
  apply bind_ok in H as ([] & s11 & H4 & H5). apply db_call_ok in H4 as (_ & T11 & C11).
  apply log_ok in H5 as [T12 C12].
  exists tc, tp, tv, ts, ta, tst. repeat split; try assumption; try apply Ec; try apply Ep;
    try apply Ev; try apply Es; try apply Ea; try apply Est; try congruence.
  rewrite T12, T11, T3, Tst, Ta, Ts, Tv, Tp, Tc, T4, T2, T1.
  simpl. rewrite <- !app_assoc. reflexivity.
Qed.

(** C8: in a run of main that returns normally, the trace is: the
    after-cleaning log line; one connection; autocommit switched off; one
    cursor; then the events of the Core load, the Pricing load, the Vehicle
    load, the Specs load, the Appearance load and the Status load, each a
    nonempty block of that table's own statements and log lines, one block
    after the other; then the cursor closed, one commit, its log line and
    the connection closed. No statement of a child table precedes the end
    of the Core load, and all six loads run inside the single transaction
    that the one commit ends. *)
Theorem main_success_trace (env : db) (cy : Z) (inp : inputs) (s : st) :
  main env cy inp = (Ok tt, s) ->
  exists counts tc tp tv ts ta tst,
    trace s = [ELog (LAfterCleaning counts); EConnect; EAutocommitOff; ECursorOpen]
      ++ tc ++ tp ++ tv ++ ts ++ ta ++ tst
      ++ [ECursorClose; ECommit; ELog LCommitted; EClose] /\
    table_events "core" tc /\ table_events "pricing" tp /\
    table_events "vehicle" tv /\ table_events "specs" ts /\
    table_events "appearance" ta /\ table_events "status" tst.
Proof.
  unfold main, main_m. intros H.
  apply bind_ok in H as (cs & s1 & H1 & H). apply lift_ok in H1 as [_ ->].
  apply bind_ok in H as ([] & s2 & H2 & H). apply log_ok in H2 as [T2 _].
  unfold transacting, try_finally, try_except in H.
  destruct (try_body env _ _ _ _ _ _ s2) as [[u|e] s3] eqn:Eb.
  - destruct u. apply try_body_ok in Eb as (tc & tp & tv & ts & ta & tst & T3 & Ec & Ep & Ev
                                             & Es & Ea & Est & C3).
    unfold close_conn in H. rewrite C3, try_pass_eq in H.
    unfold db_call, m_bind, emit in H. simpl in H.
    destruct (close_fails env); injection H as <-;
    exists (List.map (fun df => length (rows df))
              [in_core cs; in_pricing cs; in_vehicle cs; in_specs cs;
               in_appearance cs; in_status cs]), tc, tp, tv, ts, ta, tst;
    (split; [|exact (conj Ec (conj Ep (conj Ev (conj Es (conj Ea Est)))))]);
    simpl; rewrite T3, T2; simpl; rewrite <- !app_assoc; reflexivity.
  - destruct (on_error_fails env e s3) as [s4 Ho]. rewrite Ho in H.
    destruct (close_conn env s4) as [[] ?]; discriminate H.
Qed.

Lemma main_success_trace_witness :
  main sample_env the_year sample_inputs = (Ok tt, snd (main sample_env the_year sample_inputs)) /\
  exists counts tc tp tv ts ta tst,
    trace (snd (main sample_env the_year sample_inputs))
      = [ELog (LAfterCleaning counts); EConnect; EAutocommitOff; ECursorOpen]
      ++ tc ++ tp ++ tv ++ ts ++ ta ++ tst
      ++ [ECursorClose; ECommit; ELog LCommitted; EClose] /\
    table_events "core" tc /\ table_events "pricing" tp /\
    table_events "vehicle" tv /\ table_events "specs" ts /\
    table_events "appearance" ta /\ table_events "status" tst.
Proof.
  assert (H : main sample_env the_year sample_inputs
              = (Ok tt, snd (main sample_env the_year sample_inputs)))
    by (vm_compute; reflexivity).
  split; [exact H|]. exact (main_success_trace _ _ _ _ H).
Defined.

(** ** The error path of main *)

Lemma pc_bind {A B} (m : M A) (k : A -> M B) :
  preserves_conn m -> (forall a, preserves_conn (k a)) -> preserves_conn (m_bind m k).
Proof.
  intros Hm Hk s r s' H. unfold m_bind in H.
  destruct (m s) as [[a|e] s1] eqn:E.
  - rewrite (Hk a _ _ _ H). eapply Hm; eauto.
  - injection H as _ <-. eapply Hm; eauto.
Qed.

Lemma pc_emit ev : preserves_conn (emit ev).
Proof. intros s r s' H. injection H as _ <-. reflexivity. Qed.

Lemma pc_ret {A} (a : A) : preserves_conn (ret a).
Proof. intros s r s' H. injection H as _ <-. reflexivity. Qed.

Lemma pc_raise {A} e : preserves_conn (@raise A e).
Proof. intros s r s' H. injection H as _ <-. reflexivity. Qed.

Lemma pc_lift {A} (x : result A) : preserves_conn (lift x).
Proof. intros s r s' H. injection H as _ <-. reflexivity. Qed.

Lemma pc_db_call ev o : preserves_conn (db_call ev o).
Proof.
  apply pc_bind; [apply pc_emit|]. intros _. destruct o; [apply pc_raise|apply pc_ret].
Qed.

Lemma pc_for_each {A} (xs : list A) f :
  (forall x, preserves_conn (f x)) -> preserves_conn (for_each xs f).
Proof.
  intros Hf. induction xs as [|x rest IH]; simpl.
  - apply pc_ret.
  - apply pc_bind; auto.
Qed.

Lemma pc_load env table cols df : preserves_conn (load env table cols df).
Proof.
  apply pc_bind; [apply pc_lift|]. intros rs. unfold insert_batches.
  destruct rs; [apply pc_emit|]. apply pc_for_each. intros i.
  apply pc_bind; [|intros; apply pc_emit].
  apply pc_for_each. intros; apply pc_db_call.
Qed.

Lemma pc_with_cursor env body : preserves_conn body -> preserves_conn (with_cursor env body).
Proof.
  intros Hb. apply pc_bind; [apply pc_db_call|]. intros _ s r s' H.
  destruct (body s) as [r1 s1] eqn:E. injection H as _ <-. simpl. eapply Hb; eauto.
Qed.

Lemma try_body_not_connected env c p v sp a st0 s e s' :
  conn s = false ->
  try_body env c p v sp a st0 s = (Err e, s') ->
  conn s' = false ->
  connect_fails env = Some e /\ trace s' = trace s ++ [EConnect].
Proof.
  intros C0 H C1. unfold try_body, m_bind at 1 in H.
  destruct (get_conn env s) as [[[]|e'] s1] eqn:Eg.
  - apply get_conn_ok in Eg as (_ & _ & Ct).
    assert (Hp : preserves_conn
      (_ <- db_call EAutocommitOff (autocommit_fails env) ;;
       _ <- with_cursor env (
              _ <- load env "core" core_cols c ;;
              _ <- load env "pricing" pricing_cols p ;;
              _ <- load env "vehicle" vehicle_cols v ;;
              _ <- load env "specs" specs_cols sp ;;
              _ <- load env "appearance" appearance_cols a ;;
              load env "status" status_cols st0) ;;
       _ <- db_call ECommit (commit_fails env) ;;
       log LCommitted)).
    { repeat first [ apply pc_db_call | apply pc_with_cursor | apply pc_load
                   | apply pc_emit | apply pc_bind | intros _ ]. }
    specialize (Hp _ _ _ H). congruence.
  - injection H as -> <-. unfold get_conn, m_bind, db_call, emit in Eg. simpl in Eg.
    destruct (connect_fails env) as [e0|]; simpl in Eg; [|discriminate Eg].
    injection Eg as -> <-. auto.
Qed.

Lemma main_after_prepare env cy inp cs :
  prepare cy inp = Ok cs ->
  main env cy inp =
  transacting env (in_core cs) (in_pricing cs) (in_vehicle cs) (in_specs cs)
    (in_appearance cs) (in_status cs) (after_cleaning cs).
Proof. intros Hp. unfold main, main_m, m_bind, lift. rewrite Hp. reflexivity. Qed.

(** C1 (amended): if the [try] block of main raises [e] (connecting,
    switching off autocommit, opening the cursor, an insert or the commit),
    main raises that same [e]. Its trace is the [try] block's, then the
    failure log line, then [rollback_tail]: a rollback is attempted only
    when the connection was opened, "Rolled back" is logged only when the
    rollback succeeds, and a failed rollback leaves no log line at all.
    The connection is never opened exactly when connecting raised [e]. *)
Theorem main_transacting_error (env : db) (cy : Z) (inp cs : inputs) (e : exn) (s1 : st) :
  prepare cy inp = Ok cs ->
  try_body env (in_core cs) (in_pricing cs) (in_vehicle cs) (in_specs cs)
    (in_appearance cs) (in_status cs) (after_cleaning cs) = (Err e, s1) ->
  main env cy inp =
    (Err e, mk_st (trace s1 ++ ELog (LInsertFailed e) :: rollback_tail env (conn s1)) (conn s1)) /\
  (conn s1 = false ->
   connect_fails env = Some e /\ trace s1 = trace (after_cleaning cs) ++ [EConnect]).
Proof.
  intros Hp Hb. split.
  - rewrite (main_after_prepare env cy inp cs Hp).
    unfold transacting, try_finally, try_except. rewrite Hb.
    unfold on_error, close_conn, rollback_tail, m_bind, log, emit, raise, ret.
    cbn -[try_pass]. destruct (conn s1) eqn:C.
    + rewrite !try_pass_eq. unfold db_call, m_bind, emit, raise, ret. cbn.
      try rewrite C. destruct (rollback_fails env), (close_fails env); cbn; try rewrite C;
        rewrite <- !app_assoc; reflexivity.
    + cbn. try rewrite C. reflexivity.
  - intros C. eapply try_body_not_connected; eauto.
Qed.

(** C1, counterexample: (a) the Core insert raises and the rollback raises
    too; the run ends with the failure log line, the rollback call and the
    close, and no log line reports the failed rollback. (b) connecting
    raises; no rollback is attempted at all. *)
Lemma main_rollback_failure_unlogged :
  fst (main env_rollback_fails the_year sample_inputs) = Err (DbError 1) /\
  firstn 3 (rev (trace (snd (main env_rollback_fails the_year sample_inputs))))
    = [EClose; ERollback; ELog (LInsertFailed (DbError 1))] /\
  main env_connect_fails the_year sample_inputs
    = (Err (DbError 3),
       mk_st [ELog (LAfterCleaning [2; 1; 1; 1; 1; 0]%nat); EConnect;
              ELog (LInsertFailed (DbError 3))] false).
Proof. vm_compute. repeat split. Qed.

Lemma main_transacting_error_witness :
  exists cs e s1,
    prepare the_year sample_inputs = Ok cs /\
    try_body env_rollback_fails (in_core cs) (in_pricing cs) (in_vehicle cs) (in_specs cs)
      (in_appearance cs) (in_status cs) (after_cleaning cs) = (Err e, s1) /\
    main env_rollback_fails the_year sample_inputs =
      (Err e, mk_st (trace s1 ++ ELog (LInsertFailed e) :: rollback_tail env_rollback_fails (conn s1))
                    (conn s1)) /\
    (conn s1 = false ->
     connect_fails env_rollback_fails = Some e /\ trace s1 = trace (after_cleaning cs) ++ [EConnect]).
Proof.
  assert (Hp : prepare the_year sample_inputs = Ok sample_cleaned) by (vm_compute; reflexivity).
  assert (Hb : try_body env_rollback_fails (in_core sample_cleaned) (in_pricing sample_cleaned)
                 (in_vehicle sample_cleaned) (in_specs sample_cleaned)
                 (in_appearance sample_cleaned) (in_status sample_cleaned)
                 (after_cleaning sample_cleaned)
               = (Err (DbError 1),
                  snd (try_body env_rollback_fails (in_core sample_cleaned) (in_pricing sample_cleaned)
                         (in_vehicle sample_cleaned) (in_specs sample_cleaned)
                         (in_appearance sample_cleaned) (in_status sample_cleaned)
                         (after_cleaning sample_cleaned))))
    by (vm_compute; reflexivity).
  do 3 eexists. split; [exact Hp|]. split; [exact Hb|].
  exact (main_transacting_error env_rollback_fails the_year sample_inputs sample_cleaned
           (DbError 1) _ Hp Hb).
Defined.

(* ================================================================== *)
(** ** Further properties of the cleaners *)










(** Every row a cleaner keeps has an integer listing_id: the value the
    source row's listing_id converts to, never missing, never a string or
    a float. *)
Theorem clean_key_integer (cy : Z) (t : table) (df df' : frame) :
  clean cy t df = Ok df' ->
  forall r', In r' (rows df') ->
  exists r z, In r (rows df) /\ fst r = fst r' /\
    to_key (cell (snd r) "listing_id") = Ok (VInt z) /\
    cell (snd r') "listing_id" = VInt z.
Proof.
  intros H r' Hr'.
  destruct (in_clean_rows cy t df df' r' H Hr') as (r & Hr & Er & Hnn).
  apply notna_required_key in Hnn. rewrite Er, key_clean_row in Hnn.
  destruct (force_to_key_not_na _ _ eq_refl Hnn) as [Hk [z Hz]].
  exists r, z. split; [exact Hr|]. split; [rewrite Er; symmetry; apply fst_clean_row|].
  rewrite Hz in Hk. split; [exact Hk|]. rewrite Er, key_clean_row, <- Hz. reflexivity.
Qed.

Lemma clean_key_integer_witness :
  exists df' r' r z,
    clean the_year Core core_spellings = Ok df' /\ In r' (rows df') /\
    In r (rows core_spellings) /\ fst r = fst r' /\
    to_key (cell (snd r) "listing_id") = Ok (VInt z) /\ cell (snd r') "listing_id" = VInt z.
Proof.
  assert (H : clean the_year Core core_spellings = Ok (cleaned Core core_spellings))
    by (vm_compute; reflexivity).
  set (r' := hd (0%nat, ∅) (rows (cleaned Core core_spellings))).
  assert (Hr : In r' (rows (cleaned Core core_spellings))) by (vm_compute; left; reflexivity).
  destruct (clean_key_integer the_year Core core_spellings _ H r' Hr) as (r & z & P).
  exists (cleaned Core core_spellings), r', r, z. auto.
Defined.

(** A cleaner never adds or removes a column and never adds a row. *)
Theorem clean_shape (cy : Z) (t : table) (df df' : frame) :
  clean cy t df = Ok df' ->
  columns df' = columns df /\ (length (rows df') <= length (rows df))%nat.
Proof.
  intros H. apply clean_ok in H as [Hc Hr]. split; [exact Hc|]. rewrite Hr.
  transitivity (length (List.map (clean_row cy t (has_col df))
                          (dedup_rows "listing_id" [] (rows df)))).
  - apply sublist_length, filter_sublist.
  - rewrite length_map. apply sublist_length, dedup_rows_sublist.
Qed.

Lemma clean_shape_witness :
  columns (cleaned Core core_spellings) = columns core_spellings /\
  (length (rows (cleaned Core core_spellings)) <= length (rows core_spellings))%nat.
Proof.
  apply clean_shape with (cy := the_year) (t := Core). vm_compute. reflexivity.
Defined.

(** ** What the cleaners raise *)

Lemma drop_duplicates_err c df e :
  drop_duplicates c df = Err e -> has_col df c = false /\ e = KeyError [c].
Proof.
  unfold drop_duplicates. destruct (has_col df c); intros H; inversion H; auto.
Qed.

Lemma assign_err c f df e :
  assign c f df = Err e -> has_col df c = false /\ e = KeyError [c].
Proof. unfold assign. destruct (has_col df c); intros H; inversion H; auto. Qed.

Lemma loc_set_na_err c m df e :
  loc_set_na c m df = Err e -> has_col df c = false /\ e = KeyError [c].
Proof. apply assign_err. Qed.

Lemma to_key_err v e : to_key v = Err e -> e = TypeError.
Proof.
  unfold to_key, astype_Int64. destruct (to_numeric v); try discriminate.
  - destruct (_ =? 0); intros H; inversion H; reflexivity.
  - intros H; inversion H; reflexivity.
Qed.

Lemma map_rows_res_err c rs e : map_rows_res c to_key rs = Err e -> e = TypeError.
Proof.
  induction rs as [|[l r] rest IH]; simpl; [discriminate|].
  destruct (to_key (cell r c)) eqn:E; simpl; [|intros H; inversion H; subst; eapply to_key_err; eauto].
  destruct (map_rows_res c to_key rest); simpl; [discriminate|]. intros H; inversion H; subst; auto.
Qed.

Lemma assign_res_err c df e :
  assign_res c to_key df = Err e ->
  (has_col df c = false /\ e = KeyError [c]) \/ (has_col df c = true /\ e = TypeError).
Proof.
  unfold assign_res. destruct (has_col df c).
  - destruct (map_rows_res c to_key (rows df)) eqn:E; simpl; [discriminate|].
    intros H; inversion H; subst. right. split; [reflexivity|]. eapply map_rows_res_err; eauto.
  - intros H; inversion H; auto.
Qed.

Lemma strip_cols_never_err cs df e : strip_cols cs df <> Err e.
Proof.
  revert df. induction cs as [|c rest IH]; intros df; simpl; [discriminate|].
  destruct (has_col df c) eqn:Hc; simpl; [|apply IH].
  unfold assign. rewrite Hc. simpl. apply IH.
Qed.

Lemma dropna_err cs df e :
  dropna cs df = Err e -> exists c, In c cs /\ has_col df c = false.
Proof.
  unfold dropna. destruct (List.filter _ cs) as [|c rest] eqn:E; [discriminate|].
  intros _. assert (Hc : In c (List.filter (fun c => negb (has_col df c)) cs)) by (rewrite E; left; auto).
  apply filter_In in Hc as [Hin Hn]. exists c. split; [exact Hin|]. destruct (has_col df c); auto.
Qed.

Lemma assign_ok' c f df df' :
  assign c f df = Ok df' ->
  has_col df c = true /\ columns df' = columns df.
Proof.
  unfold assign. destruct (has_col df c); intros H; inversion H; auto.
Qed.

Lemma assign_res_ok' c f df df' :
  assign_res c f df = Ok df' -> has_col df c = true /\ columns df' = columns df.
Proof.
  intros H. split; [|apply (assign_res_ok _ _ _ _ H)].
  unfold assign_res in H. destruct (has_col df c); [reflexivity|discriminate].
Qed.

Ltac err_steps :=
  repeat match goal with
  | H : res_bind ?m _ = Err _ |- _ =>
      let E := fresh "E" in destruct m eqn:E; simpl in H
  | H : res_bind ?m _ = Ok _ |- _ =>
      let E := fresh "E" in destruct m eqn:E; simpl in H; [|discriminate H]
  | H : (if ?b then _ else _) = _ |- _ =>
      let Hb := fresh "Hb" in destruct b eqn:Hb
  | H : Err _ = Err _ |- _ => inversion H; subst; clear H
  | H : Ok _ = Ok _ |- _ => inversion H; subst; clear H
  | H : drop_duplicates _ _ = Ok _ |- _ => apply drop_duplicates_ok in H as [? ?]
  | H : assign_res _ _ _ = Ok _ |- _ => apply assign_res_ok' in H as [? ?]
  | H : loc_set_na _ _ _ = Ok _ |- _ => unfold loc_set_na in H
  | H : assign _ _ _ = Ok _ |- _ => apply assign_ok' in H as [? ?]
  | H : strip_cols _ _ = Ok _ |- _ => apply strip_cols_ok in H as [? _]
  | H : drop_duplicates _ _ = Err _ |- _ => apply drop_duplicates_err in H as [? ?]
  | H : assign_res _ _ _ = Err _ |- _ => apply assign_res_err in H as [[? ?]|[? ?]]
  | H : loc_set_na _ _ _ = Err _ |- _ => apply loc_set_na_err in H as [? ?]
  | H : assign _ _ _ = Err _ |- _ => apply assign_err in H as [? ?]
  | H : strip_cols _ _ = Err _ |- _ => exfalso; exact (strip_cols_never_err _ _ _ H)
  | H : dropna _ _ = Err _ |- _ => apply dropna_err in H as (? & ? & ?)
  end.

Lemma drop_duplicates_has_col c df df' :
  drop_duplicates c df = Ok df' -> has_col df c = true.
Proof. unfold drop_duplicates. destruct (has_col df c); [auto|discriminate]. Qed.

Lemma clean_err_cases (cy : Z) (t : table) (df : frame) (e : exn) :
  clean cy t df = Err e ->
  (has_col df "listing_id" = false /\ e = KeyError ["listing_id"]) \/
  (t = Core /\ has_col df "listing_id" = true /\ has_col df "url" = false /\
   e = KeyError ["url"]) \/
  (has_col df "listing_id" = true /\ e = TypeError).
Proof.
  intros H.
  destruct (has_col df "listing_id") eqn:Hk.
  2:{ left. split; [reflexivity|].
      destruct t; simpl in H;
        unfold clean_core, clean_pricing, clean_vehicle, clean_specs, clean_appearance,
          clean_status, drop_duplicates in H; rewrite Hk in H; simpl in H;
        inversion H; reflexivity. }
  destruct t; simpl in H;
    unfold clean_core, clean_pricing, clean_vehicle, clean_specs, clean_appearance,
      clean_status in H;
    err_steps; normalise;
    repeat match goal with
    | H : In _ _ |- _ => simpl in H
    | H : _ = _ \/ _ |- _ => destruct H as [<-|H]
    | H : False |- _ => destruct H
    end;
    first [ congruence
          | right; right; split; first [reflexivity | assumption]
          | right; left; repeat split; first [reflexivity | assumption] ].
Qed.

(** A cleaner raises KeyError for listing_id exactly when the frame has no
    listing_id column. Otherwise it raises only KeyError for url (Core
    without a url column) or TypeError (a listing_id, year or mileage that
    is numeric but not a whole number). *)
Theorem clean_errors (cy : Z) (t : table) (df : frame) :
  (has_col df "listing_id" = false -> clean cy t df = Err (KeyError ["listing_id"])) /\
  (forall e, clean cy t df = Err e ->
     (has_col df "listing_id" = false /\ e = KeyError ["listing_id"]) \/
     (t = Core /\ has_col df "listing_id" = true /\ has_col df "url" = false /\
      e = KeyError ["url"]) \/
     (has_col df "listing_id" = true /\ e = TypeError)).
Proof.
  split.
  - intros Hc. destruct t; simpl;
      unfold clean_core, clean_pricing, clean_vehicle, clean_specs, clean_appearance,
        clean_status, drop_duplicates; rewrite Hc; reflexivity.
  - intros e H. exact (clean_err_cases cy t df e H).
Qed.

Lemma clean_errors_witness :
  clean the_year Vehicle vehicle_no_key = Err (KeyError ["listing_id"]) /\
  ((has_col core_no_url "listing_id" = false /\ KeyError ["url"] = KeyError ["listing_id"]) \/
   (Core = Core /\ has_col core_no_url "listing_id" = true /\
    has_col core_no_url "url" = false /\ KeyError ["url"] = KeyError ["url"]) \/
   (has_col core_no_url "listing_id" = true /\ KeyError ["url"] = TypeError)).
Proof.
  split.
  - apply (proj1 (clean_errors the_year Vehicle vehicle_no_key)). vm_compute. reflexivity.
  - apply (proj2 (clean_errors the_year Core core_no_url)). vm_compute. reflexivity.
Defined.

(** ** Specs: engine and wheel sizes *)

Lemma specs_row_engine hc r :
  cell (snd (specs_row hc r)) "engine_size" =
  if hc "engine_size" then mask_na non_positive (to_numeric (cell (snd r) "engine_size"))
  else cell (snd r) "engine_size".
Proof.
  unfold specs_row, key_row.
  destruct (hc "engine_size"), (hc "wheel_size"); simp_cells; reflexivity.
Qed.

Lemma specs_row_wheel hc r :
  cell (snd (specs_row hc r)) "wheel_size" =
  if hc "wheel_size" then mask_na non_positive (to_numeric (cell (snd r) "wheel_size"))
  else cell (snd r) "wheel_size".
Proof.
  unfold specs_row, key_row.
  destruct (hc "engine_size"), (hc "wheel_size"); simp_cells; reflexivity.
Qed.

Lemma q_le_spec a b : q_le a b = true <-> (a <= b)%Q.
Proof. unfold q_le, Qle. apply Z.leb_le. Qed.

Lemma mask_non_positive v :
  (forall q, num_of v = Some q -> (q <= 0)%Q -> mask_na non_positive v = VNA) /\
  ((forall q, num_of v = Some q -> (0 < q)%Q) -> mask_na non_positive v = v).
Proof.
  unfold mask_na, non_positive. split.
  - intros q Hq Hle. rewrite Hq. apply q_le_spec in Hle. rewrite Hle. reflexivity.
  - intros Hgt. destruct (num_of v) as [q|] eqn:Hq; [|reflexivity].
    destruct (q_le q 0) eqn:Hle; [|reflexivity].
    apply q_le_spec in Hle. specialize (Hgt q eq_refl). exfalso.
    apply (Qlt_not_le _ _ Hgt Hle).
Qed.

(** In the cleaned Specs table, engine_size and wheel_size (when the
    column exists) are the numbers parsed from the source values, or
    missing where that number is zero or negative. *)
Theorem clean_specs_sizes (df df' : frame) :
  clean_specs df = Ok df' ->
  forall r', In r' (rows df') ->
  exists r, In r (rows df) /\ fst r = fst r' /\
    forall c, (c = "engine_size" \/ c = "wheel_size") -> has_col df c = true ->
      let p := to_numeric (cell (snd r) c) in
      (forall q, num_of p = Some q -> (q <= 0)%Q -> cell (snd r') c = VNA) /\
      ((forall q, num_of p = Some q -> (0 < q)%Q) -> cell (snd r') c = p).
Proof.
  intros H r' Hr'.
  destruct (in_clean_rows 0 Specs df df' r' H Hr') as (r & Hr & -> & _).
  exists r. split; [exact Hr|]. split; [symmetry; apply fst_clean_row|].
  intros c [->| ->] Hc; cbn [clean_row];
    [rewrite specs_row_engine | rewrite specs_row_wheel]; rewrite Hc; apply mask_non_positive.
Qed.

Lemma clean_specs_sizes_witness :
  exists df' r' r,
    clean_specs specs_sample = Ok df' /\ In r' (rows df') /\
    In r (rows specs_sample) /\ fst r = fst r' /\
    forall c, (c = "engine_size" \/ c = "wheel_size") -> has_col specs_sample c = true ->
      let p := to_numeric (cell (snd r) c) in
      (forall q, num_of p = Some q -> (q <= 0)%Q -> cell (snd r') c = VNA) /\
      ((forall q, num_of p = Some q -> (0 < q)%Q) -> cell (snd r') c = p).
Proof.
  assert (H : clean_specs specs_sample = Ok (cleaned Specs specs_sample))
    by (vm_compute; reflexivity).
  set (r' := hd (0%nat, ∅) (rows (cleaned Specs specs_sample))).
  assert (Hr : In r' (rows (cleaned Specs specs_sample))) by (vm_compute; left; reflexivity).
  destruct (clean_specs_sizes specs_sample _ H r' Hr) as (r & P).
  exists (cleaned Specs specs_sample), r', r. auto.
Defined.

(** ** The tuples handed to psycopg2 *)

Lemma missing_cols_nil df cols :
  (forall c, In c cols -> has_col df c = true) ->
  List.filter (fun c => negb (has_col df c)) cols = [].
Proof.
  induction cols as [|c rest IH]; intros Hall; simpl; [reflexivity|].
  rewrite Hall by (left; reflexivity). simpl. apply IH. intros c' Hc'. apply Hall. right. exact Hc'.
Qed.

Lemma to_py_cell v : to_py (cell_to_py v) = py_plain v.
Proof. destruct v; reflexivity. Qed.

(** [rows_as_tuples(df, cols)] succeeds exactly when every requested column
    exists. It then gives one tuple per row, in row order, holding the
    plain Python value of each requested cell, in column order: no numpy
    scalar, NaN or pd.NA reaches the database. Otherwise it raises KeyError
    naming exactly the missing columns, in the order requested. *)
Theorem rows_as_tuples_spec (df : frame) (cols : list string) :
  ((forall c, In c cols -> has_col df c = true) ->
   rows_as_tuples df cols =
     Ok (List.map (fun lr => List.map (fun c => py_plain (cell (snd lr) c)) cols) (rows df))) /\
  (forall missing, rows_as_tuples df cols = Err (KeyError missing) ->
     missing <> [] /\ missing = List.filter (fun c => negb (has_col df c)) cols) /\
  ((exists c, In c cols /\ has_col df c = false) ->
   exists missing, rows_as_tuples df cols = Err (KeyError missing)).
Proof.
  unfold rows_as_tuples. split; [|split].
  - intros Hall. rewrite (missing_cols_nil df cols Hall).
    rewrite tuples_loop_app. simpl. f_equal. apply map_ext. intros lr.
    apply map_ext. intros c. apply to_py_cell.
  - intros missing.
    destruct (List.filter (fun c => negb (has_col df c)) cols) as [|c rest] eqn:E;
      intros H; inversion H; subst. split; [discriminate|reflexivity].
  - intros (c & Hin & Hc).
    destruct (List.filter (fun c => negb (has_col df c)) cols) as [|c' rest] eqn:E; [|eauto].
    exfalso. assert (Hf : In c (List.filter (fun c => negb (has_col df c)) cols))
      by (apply filter_In; rewrite Hc; auto).
    rewrite E in Hf. destruct Hf.
Qed.

Lemma rows_as_tuples_spec_witness :
  rows_as_tuples (cleaned Core core_spellings) core_cols =
    Ok (List.map (fun lr => List.map (fun c => py_plain (cell (snd lr) c)) core_cols)
          (rows (cleaned Core core_spellings))) /\
  exists missing, rows_as_tuples core_no_url core_cols = Err (KeyError missing).
Proof.
  split.
  - apply (proj1 (rows_as_tuples_spec (cleaned Core core_spellings) core_cols)).
    intros c Hc. simpl in Hc. destruct Hc as [<-|[<-|[]]]; vm_compute; reflexivity.
  - apply (proj2 (proj2 (rows_as_tuples_spec core_no_url core_cols))).
    exists "url"%string. split; [simpl; auto|vm_compute; reflexivity].
Defined.

(** ** Failures of the batch loader *)

Lemma bind_err {A B} (m : M A) (k : A -> M B) s e s' :
  m_bind m k s = (Err e, s') ->
  m s = (Err e, s') \/ exists a s1, m s = (Ok a, s1) /\ k a s1 = (Err e, s').
Proof.
  unfold m_bind. destruct (m s) as [[a|e'] s1]; intros H; [eauto|].
  inversion H; subst. auto.
Qed.

Lemma for_each_err {A} (xs : list A) (f : A -> M unit) s e s' :
  for_each xs f s = (Err e, s') -> exists x s0, In x xs /\ f x s0 = (Err e, s').
Proof.
  revert s. induction xs as [|x rest IH]; intros s H; simpl in H; [discriminate|].
  apply bind_err in H as [H|([] & s1 & _ & H)].
  - exists x, s. split; [left; reflexivity|exact H].
  - destruct (IH s1 H) as (y & s0 & Hy & Hf). exists y, s0. split; [right; exact Hy|exact Hf].
Qed.

Lemma db_call_err ev o s e s' :
  db_call ev o s = (Err e, s') -> o = Some e /\ trace s' = trace s ++ [ev].
Proof.
  unfold db_call, m_bind, emit. destruct o as [e0|]; simpl; intros H; inversion H; auto.
Qed.

(** The batch loader raises only when one of its INSERT statements raises.
    The error is that statement's error, unchanged, and that statement is
    the last event: no progress line is logged for the failed batch. *)
Theorem insert_batches_failure (env : db) (table : string) (cols : list string)
    (rs : list tuple) (s s' : st) (e : exn) :
  insert_batches env table cols rs s = (Err e, s') ->
  exists page pre, trace s' = pre ++ [EExec table cols page] /\
    exec_fails env table page = Some e.
Proof.
  unfold insert_batches. destruct rs as [|r0 rs0]; [unfold log, emit; discriminate|].
  intros H. apply for_each_err in H as (i & s0 & _ & H).
  apply bind_err in H as [H|(u & s1 & _ & H)]; [|unfold log, emit in H; discriminate].
  unfold execute_values in H. apply for_each_err in H as (page & s2 & _ & H).
  apply db_call_err in H as [He Ht]. exists page, (trace s2). auto.
Qed.

Lemma insert_batches_failure_witness :
  exists page pre,
    trace (snd (insert_batches env_core_fails "core" core_cols (sample_tuples 3) (mk_st [] true)))
      = pre ++ [EExec "core" core_cols page] /\
    exec_fails env_core_fails "core" page = Some (DbError 7).
Proof.
  apply (insert_batches_failure env_core_fails "core" core_cols (sample_tuples 3) (mk_st [] true)).
  vm_compute. reflexivity.
Defined.

(** ** The progress log of the batch loader *)

Lemma py_range_ge fuel start stop step :
  (stop <= start)%nat -> py_range fuel start stop step = [].
Proof.
  destruct fuel; simpl; [reflexivity|]. intros H.
  destruct (start <? stop)%nat eqn:E; [apply Nat.ltb_lt in E; lia|reflexivity].
Qed.

Lemma py_range_tiles B n fuel st :
  (0 < B)%nat -> (st <= n)%nat -> (n - st <= fuel)%nat ->
  spans_tile B st n (List.map (fun i => (i, Nat.min (i + B) n)) (py_range fuel st n B)).
Proof.
  intros HB. revert st. induction fuel as [|f IH]; intros st H1 H2; simpl; [lia|].
  destruct (st <? n)%nat eqn:E; simpl; [|apply Nat.ltb_ge in E; lia].
  apply Nat.ltb_lt in E. split; [reflexivity|]. split; [lia|].
  destruct (Nat.le_gt_cases n (st + B)) as [Hge|Hlt].
  - rewrite py_range_ge by exact Hge. simpl. lia.
  - replace (Nat.min (st + B) n) with (st + B)%nat by lia. apply IH; lia.
Qed.

Lemma firstn_min_length {A} k (l : list A) : firstn k l = firstn (Nat.min k (length l)) l.
Proof.
  revert k. induction l as [|x l IH]; intros k; destruct k; simpl; try reflexivity.
  rewrite IH at 1. reflexivity.
Qed.

(** A successful call of the batch loader on a nonempty list logs, after
    each INSERT statement, the span [start, stop) of the rows it carried
    and the total. The statement holds exactly the rows at positions
    start .. stop-1. The spans are consecutive, nonempty and at most 5000
    long, and together they cover 0 .. total. *)
Theorem insert_batches_progress (env : db) (table : string) (cols : list string)
    (rs : list tuple) (s s' : st) :
  rs <> [] ->
  insert_batches env table cols rs s = (Ok tt, s') ->
  exists spans,
    trace s' = trace s ++
      concat (List.map (fun sp =>
        [EExec table cols (firstn (snd sp - fst sp) (skipn (fst sp) rs));
         ELog (LBatch table (fst sp) (snd sp) (length rs))]) spans) /\
    spans_tile BATCH_SIZE 0 (length rs) spans.
Proof.
  intros Hne H. apply insert_batches_trace in H as [T _]; [|exact Hne].
  exists (List.map (fun i => (i, Nat.min (i + BATCH_SIZE) (length rs)))
            (py_range (length rs) 0 (length rs) BATCH_SIZE)).
  split.
  - rewrite T, map_map. f_equal. f_equal. apply map_ext_in. intros i Hi. simpl.
    apply py_range_lt in Hi. unfold chunk. rewrite firstn_min_length, length_skipn.
    do 3 f_equal. lia.
  - apply py_range_tiles; [unfold BATCH_SIZE; lia|lia|lia].
Qed.

Lemma insert_batches_progress_witness :
  exists spans,
    trace (snd (insert_batches sample_env "core" ["listing_id"] (sample_tuples 12001)
                  (mk_st [] false))) = [] ++
      concat (List.map (fun sp =>
        [EExec "core" ["listing_id"] (firstn (snd sp - fst sp) (skipn (fst sp) (sample_tuples 12001)));
         ELog (LBatch "core" (fst sp) (snd sp) (length (sample_tuples 12001)))]) spans) /\
    spans_tile BATCH_SIZE 0 (length (sample_tuples 12001)) spans.
Proof.
  apply (insert_batches_progress sample_env "core" ["listing_id"] (sample_tuples 12001)
           (mk_st [] false)).
  - vm_compute. discriminate.
  - vm_compute. reflexivity.
Defined.

(** ** Runs of main *)

Section Emits.

Variable P : event -> Prop.

Lemma eo_bind {A B} (m : M A) (k : A -> M B) :
  emits_only P m -> (forall a, emits_only P (k a)) -> emits_only P (m_bind m k).
Proof.
  intros Hm Hk s r s' H. unfold m_bind in H.
  destruct (m s) as [[a|e] s1] eqn:E.
  - destruct (Hm _ _ _ E) as (n1 & T1 & F1). destruct (Hk a _ _ _ H) as (n2 & T2 & F2).
    exists (n1 ++ n2). rewrite T2, T1, app_assoc. split; [reflexivity|]. apply Forall_app; auto.
  - inversion H; subst. eapply Hm; eauto.
Qed.

Lemma eo_emit ev : P ev -> emits_only P (emit ev).
Proof. intros Hp s r s' H. inversion H; subst. exists [ev]. simpl. auto. Qed.

Lemma eo_ret {A} (a : A) : emits_only P (ret a).
Proof. intros s r s' H. inversion H; subst. exists []. rewrite app_nil_r. auto. Qed.

Lemma eo_raise {A} e : emits_only P (@raise A e).
Proof. intros s r s' H. inversion H; subst. exists []. rewrite app_nil_r. auto. Qed.

Lemma eo_lift {A} (x : result A) : emits_only P (lift x).
Proof. intros s r s' H. inversion H; subst. exists []. rewrite app_nil_r. auto. Qed.

Lemma eo_db_call ev o : P ev -> emits_only P (db_call ev o).
Proof.
  intros Hp. apply eo_bind; [apply eo_emit; exact Hp|]. intros _.
  destruct o; [apply eo_raise|apply eo_ret].
Qed.

Lemma eo_for_each {A} (xs : list A) f :
  (forall x, emits_only P (f x)) -> emits_only P (for_each xs f).
Proof.
  intros Hf. induction xs as [|x rest IH]; simpl; [apply eo_ret|]. apply eo_bind; auto.
Qed.

Lemma eo_load env table cols df :
  (forall c p, P (EExec table c p)) -> (forall a b n, P (ELog (LBatch table a b n))) ->
  P (ELog (LZeroRows table)) ->
  emits_only P (load env table cols df).
Proof.
  intros H1 H2 H3. apply eo_bind; [apply eo_lift|]. intros rs. unfold insert_batches.
  destruct rs; [apply eo_emit; exact H3|]. apply eo_for_each. intros i.
  apply eo_bind; [|intros; apply eo_emit; apply H2].
  apply eo_for_each. intros; apply eo_db_call, H1.
Qed.

Lemma eo_with_cursor env body :
  P ECursorOpen -> P ECursorClose -> emits_only P body -> emits_only P (with_cursor env body).
Proof.
  intros Ho Hc Hb. apply eo_bind; [apply eo_db_call; exact Ho|]. intros _ s r s' H.
  destruct (body s) as [r1 s1] eqn:E. inversion H; subst. simpl.
  destruct (Hb _ _ _ E) as (n & T & F). exists (n ++ [ECursorClose]).
  rewrite T, app_assoc. split; [reflexivity|]. apply Forall_app; auto.
Qed.

Lemma eo_get_conn env : P EConnect -> emits_only P (get_conn env).
Proof.
  intros Hp. apply eo_bind; [apply eo_db_call; exact Hp|]. intros _ s r s' H.
  inversion H; subst. exists []. simpl. rewrite app_nil_r. auto.
Qed.

Lemma fo_of_eo {A} (m : M A) : emits_only P m -> fails_only P m.
Proof. intros Hm s e s' H. eapply Hm; eauto. Qed.

Lemma fo_bind {A B} (m : M A) (k : A -> M B) :
  emits_only P m -> (forall a, fails_only P (k a)) -> fails_only P (m_bind m k).
Proof.
  intros Hm Hk s e s' H. apply bind_err in H as [H|(a & s1 & E & H)].
  - eapply Hm; eauto.
  - destruct (Hm _ _ _ E) as (n1 & T1 & F1). destruct (Hk a _ _ _ H) as (n2 & T2 & F2).
    exists (n1 ++ n2). rewrite T2, T1, app_assoc. split; [reflexivity|]. apply Forall_app; auto.
Qed.

Lemma fo_log l : fails_only P (log l).
Proof. intros s e s' H. discriminate H. Qed.

Lemma eo_try_body env c p v sp a st0 :
  P EConnect -> P EAutocommitOff -> P ECursorOpen -> P ECursorClose -> P ECommit ->
  P (ELog LCommitted) ->
  (forall t cs pg, P (EExec t cs pg)) -> (forall t a b n, P (ELog (LBatch t a b n))) ->
  (forall t, P (ELog (LZeroRows t))) ->
  emits_only P (try_body env c p v sp a st0).
Proof.
  intros. unfold try_body.
  repeat first [ apply eo_get_conn | apply eo_db_call | apply eo_with_cursor | apply eo_load
               | apply eo_emit | apply eo_bind | intros _ ]; auto.
Qed.

Lemma fo_try_body env c p v sp a st0 :
  P EConnect -> P EAutocommitOff -> P ECursorOpen -> P ECursorClose -> P ECommit ->
  (forall t cs pg, P (EExec t cs pg)) -> (forall t a b n, P (ELog (LBatch t a b n))) ->
  (forall t, P (ELog (LZeroRows t))) ->
  fails_only P (try_body env c p v sp a st0).
Proof.
  intros. unfold try_body.
  apply fo_bind; [apply eo_get_conn; auto|]. intros _.
  apply fo_bind; [apply eo_db_call; auto|]. intros _.
  apply fo_bind; [|intros _].
  { apply eo_with_cursor; auto.
    repeat first [ apply eo_load | apply eo_bind | intros _ ]; auto. }
  apply fo_bind; [apply eo_db_call; auto|]. intros _. apply fo_log.
Qed.

End Emits.

Lemma main_prepare_err env cy inp e :
  prepare cy inp = Err e -> main env cy inp = (Err e, mk_st [] false).
Proof. intros Hp. unfold main, main_m, m_bind, lift. rewrite Hp. reflexivity. Qed.

Lemma main_run env cy inp cs r s1 :
  prepare cy inp = Ok cs ->
  try_body env (in_core cs) (in_pricing cs) (in_vehicle cs) (in_specs cs)
    (in_appearance cs) (in_status cs) (after_cleaning cs) = (r, s1) ->
  main env cy inp = (r, mk_st (trace s1 ++ run_tail env r (conn s1)) (conn s1)).
Proof.
  intros Hp Hb. rewrite (main_after_prepare env cy inp cs Hp).
  unfold transacting, try_finally, try_except. rewrite Hb.
  destruct r as [u|e].
  - unfold close_conn, run_tail. destruct (conn s1) eqn:C.
    + rewrite try_pass_eq. unfold db_call, m_bind, emit, raise, ret.
      destruct (close_fails env); cbn; rewrite C; reflexivity.
    + unfold ret. rewrite app_nil_r. destruct s1. simpl in *. subst. reflexivity.
  - unfold on_error, close_conn, run_tail, m_bind, log, emit, raise, ret.
    cbn -[try_pass]. destruct (conn s1) eqn:C.
    + rewrite !try_pass_eq. unfold db_call, m_bind, emit, raise, ret. cbn.
      try rewrite C. destruct (rollback_fails env), (close_fails env); cbn; try rewrite C;
        rewrite <- !app_assoc; reflexivity.
    + cbn. try rewrite C. rewrite ?app_nil_r. reflexivity.
Qed.



Lemma body_trace env cs r s1 :
  try_body env (in_core cs) (in_pricing cs) (in_vehicle cs) (in_specs cs)
    (in_appearance cs) (in_status cs) (after_cleaning cs) = (r, s1) ->
  exists new, trace s1 = trace (after_cleaning cs) ++ new /\ Forall body_event new.
Proof.
  intros H. eapply eo_try_body; [..|exact H]; simpl; auto.
Qed.

Lemma not_in_of_forall {A} (P : A -> Prop) (l : list A) x :
  Forall P l -> ~ P x -> ~ In x l.
Proof. intros HF Hx Hin. apply Hx. exact (proj1 (List.Forall_forall P l) HF x Hin). Qed.

(** Whenever main opens the connection, closing it is the last event of
    the run and happens exactly once. When the connection is never opened,
    the run has no close, no rollback, no commit, no cursor and no INSERT
    statement. *)
Theorem main_connection_lifecycle (env : db) (cy : Z) (inp : inputs) (r : result unit) (s : st) :
  main env cy inp = (r, s) ->
  (conn s = true -> exists pre, trace s = pre ++ [EClose] /\ ~ In EClose pre) /\
  (conn s = false ->
     ~ In EClose (trace s) /\ ~ In ERollback (trace s) /\ ~ In ECommit (trace s) /\
     ~ In ECursorOpen (trace s) /\ forall t c p, ~ In (EExec t c p) (trace s)).
Proof.
  intros H. destruct (prepare cy inp) as [cs|e0] eqn:Hp.
  2:{ rewrite (main_prepare_err env cy inp e0 Hp) in H. inversion H; subst.
      simpl. split; [discriminate|]. intros _. repeat split; auto. }
  destruct (try_body env (in_core cs) (in_pricing cs) (in_vehicle cs) (in_specs cs)
              (in_appearance cs) (in_status cs) (after_cleaning cs)) as [r1 s1] eqn:Eb.
  rewrite (main_run env cy inp cs r1 s1 Hp Eb) in H. inversion H; subst r s. simpl.
  destruct (body_trace env cs r1 s1 Eb) as (new & T & F).
  split.
  - intros C. rewrite C. unfold run_tail.
    exists (trace s1 ++ match r1 with
                        | Ok _ => []
                        | Err e => ELog (LInsertFailed e) ::
                                     ERollback :: (match rollback_fails env with
                                                   | None => [ELog LRolledBack]
                                                   | Some _ => [] end)
                        end).
    split.
    + destruct r1; cbn; rewrite <- ?app_assoc; reflexivity.
    + rewrite T. intros Hin. apply in_app_or in Hin as [Hin|Hin].
      * apply in_app_or in Hin as [Hin|Hin].
        -- simpl in Hin. destruct Hin as [Hin|[]]. discriminate Hin.
        -- exact (not_in_of_forall _ _ _ F (fun x : body_event EClose => x) Hin).
      * destruct r1; [exact Hin|]. destruct (rollback_fails env); simpl in Hin;
          intuition discriminate.
  - intros C. rewrite C. destruct r1 as [u|e].
    + exfalso. destruct u. apply try_body_ok in Eb as (_ & _ & _ & _ & _ & _ & _ & _ & _ & _
                                                      & _ & _ & _ & Ct). congruence.
    + destruct (try_body_not_connected env _ _ _ _ _ _ (after_cleaning cs) e s1 eq_refl Eb C) as [_ T1].
      rewrite T1. simpl. repeat split; intros Hin; intuition discriminate.
Qed.

Lemma main_connection_lifecycle_witness :
  conn (snd (main env_rollback_fails the_year sample_inputs)) = true /\
  exists pre, trace (snd (main env_rollback_fails the_year sample_inputs)) = pre ++ [EClose] /\
              ~ In EClose pre.
Proof.
  split; [vm_compute; reflexivity|].
  apply (proj1 (main_connection_lifecycle env_rollback_fails the_year sample_inputs
                  (fst (main env_rollback_fails the_year sample_inputs))
                  (snd (main env_rollback_fails the_year sample_inputs))
                  ltac:(vm_compute; reflexivity))).
  vm_compute. reflexivity.
Defined.

(** main returns normally exactly when its log has the line saying the
    data was committed, and a rollback only ever happens in a run that
    raises. *)
Theorem main_commit_logged (env : db) (cy : Z) (inp : inputs) (r : result unit) (s : st) :
  main env cy inp = (r, s) ->
  (r = Ok tt <-> In (ELog LCommitted) (trace s)) /\
  (In ERollback (trace s) -> exists e, r = Err e).
Proof.
  intros H. destruct (prepare cy inp) as [cs|e0] eqn:Hp.
  2:{ rewrite (main_prepare_err env cy inp e0 Hp) in H. inversion H; subst.
      simpl. split; [split; [discriminate|intros []]|]. intros []. }
  destruct (try_body env (in_core cs) (in_pricing cs) (in_vehicle cs) (in_specs cs)
              (in_appearance cs) (in_status cs) (after_cleaning cs)) as [r1 s1] eqn:Eb.
  rewrite (main_run env cy inp cs r1 s1 Hp Eb) in H. inversion H; subst r s. simpl.
  destruct r1 as [[]|e].
  - destruct (body_trace env cs _ s1 Eb) as (new & T & F).
    apply try_body_ok in Eb as (tc & tp & tv & ts & ta & tst & T1 & _ & _ & _ & _ & _ & _ & C1).
    split.
    + split; [intros _|reflexivity]. rewrite T1. apply in_or_app. left.
      rewrite !app_assoc. apply in_or_app. right. simpl. auto.
    + intros Hin. exfalso. rewrite C1, T in Hin. unfold run_tail in Hin. simpl in Hin.
      destruct Hin as [Hin|Hin]; [discriminate Hin|].
      apply in_app_or in Hin as [Hin|[Hin|[]]]; [|discriminate Hin].
      exact (not_in_of_forall _ _ _ F (fun x : body_event ERollback => x) Hin).
  - split; [|eauto]. split; [discriminate|]. intros Hin. exfalso.
    destruct (fo_try_body (fun ev => body_event ev /\ ev <> ELog LCommitted) env
                _ _ _ _ _ _ ltac:(split; [exact I|discriminate])
                ltac:(split; [exact I|discriminate]) ltac:(split; [exact I|discriminate])
                ltac:(split; [exact I|discriminate]) ltac:(split; [exact I|discriminate])
                ltac:(intros; split; [exact I|discriminate])
                ltac:(intros; split; [exact I|discriminate])
                ltac:(intros; split; [exact I|discriminate])
                _ _ _ Eb) as (new & T & F).
    rewrite T in Hin. apply in_app_or in Hin as [Hin|Hin].
    + apply in_app_or in Hin as [Hin|Hin].
      * destruct Hin as [Hin|[]]. discriminate Hin.
      * apply (proj1 (List.Forall_forall _ _) F) in Hin as [_ Hn]. exact (Hn eq_refl).
    + unfold run_tail in Hin. destruct (conn s1), (rollback_fails env); simpl in Hin;
        intuition discriminate.
Qed.

Lemma main_commit_logged_witness :
  In (ELog LCommitted) (trace (snd (main sample_env the_year sample_inputs))) /\
  fst (main sample_env the_year sample_inputs) = Ok tt.
Proof.
  split; [|vm_compute; reflexivity].
  apply (proj1 (proj1 (main_commit_logged sample_env the_year sample_inputs
                  (fst (main sample_env the_year sample_inputs))
                  (snd (main sample_env the_year sample_inputs))
                  ltac:(vm_compute; reflexivity)))).
  vm_compute. reflexivity.
Defined.

(** ** The cleaning stage of main *)






Lemma truthy_spec o : truthy o = true <-> exists v, o = Some v /\ v <> EmptyString.
Proof.
  destruct o as [v|]; simpl.
  - rewrite negb_true_iff, String.eqb_neq. split; [eauto|]. intros (w & Hw & Hn). congruence.
  - split; [discriminate|]. intros (w & Hw & _). discriminate.
Qed.

Lemma list_filter_sublist {A} (f : A -> bool) (l : list A) : List.filter f l `sublist_of` l.
Proof.
  induction l as [|x l IH]; simpl; [constructor|].
  destruct (f x); [apply sublist_skip|apply sublist_cons]; exact IH.
Qed.

(** get_conn raises exactly when one of PGHOST, PGDATABASE, PGUSER and
    PGPASSWORD is unset or empty, and its error lists exactly those, in that
    order. Otherwise the four are passed to connect as set, and the port is
    PGPORT whenever it is set, even to the empty string, and 5432 only when
    it is unset. *)
Theorem get_conn_params_spec (env : gmap string string) :
  ((exists p, get_conn_params env = inr p) <->
     forall k, In k required_env -> exists v, getenv env k = Some v /\ v <> EmptyString) /\
  (forall m, get_conn_params env = inl m ->
     m <> [] /\ m `sublist_of` required_env /\
     forall k, In k m <-> In k required_env /\
                          (getenv env k = None \/ getenv env k = Some EmptyString)) /\
  (forall p, get_conn_params env = inr p ->
     host p = getenv env "PGHOST" /\ dbname p = getenv env "PGDATABASE" /\
     user p = getenv env "PGUSER" /\ password p = getenv env "PGPASSWORD" /\
     port p = match getenv env "PGPORT" with Some v => v | None => "5432" end).
Proof.
  assert (Hm : forall k, In k (List.filter (fun k => negb (truthy (getenv env k))) required_env)
                         <-> In k required_env /\
                             (getenv env k = None \/ getenv env k = Some EmptyString)).
  { intros k. rewrite filter_In, negb_true_iff.
    destruct (getenv env k) as [v|]; simpl; [|intuition].
    rewrite negb_false_iff, String.eqb_eq. intuition congruence. }
  unfold get_conn_params.
  destruct (List.filter (fun k => negb (truthy (getenv env k))) required_env) as [|m0 ms] eqn:F.
  - split; [|split].
    + split; [intros _|eauto]. intros k Hk. apply truthy_spec.
      destruct (truthy (getenv env k)) eqn:T; [reflexivity|].
      assert (Hin : In k []) by (rewrite <- F; apply filter_In; rewrite T; auto). destruct Hin.
    + intros m H. discriminate H.
    + intros p H. inversion H; subst. simpl. unfold getenv_or, getenv.
      repeat split.
  - split; [|split].
    + split; [intros (p & Hp); discriminate Hp|]. intros Hall. exfalso.
      assert (Hin : In m0 (m0 :: ms)) by (left; reflexivity). rewrite Hm in Hin.
      destruct Hin as [Hk Hn]. destruct (Hall m0 Hk) as (v & Hv & Hne). rewrite Hv in Hn.
      destruct Hn as [Hn|Hn]; inversion Hn; congruence.
    + intros m H. inversion H; subst. split; [discriminate|]. split.
      * rewrite <- F. apply list_filter_sublist.
      * intros k. apply Hm.
    + intros p H. discriminate H.
Qed.

(** The module sets the five connection variables when it is imported, so
    whatever the environment it is started in, get_conn never raises its
    missing-variables error and always connects to localhost:5432, database
    car_market, as user sergey with password 1111. *)
Theorem get_conn_params_module (env : gmap string string) :
  get_conn_params (module_environ env) =
    inr (mk_conn_params (Some "localhost") "5432" (Some "car_market") (Some "sergey")
           (Some "1111")).
Proof.
  unfold get_conn_params, module_environ, getenv_or, getenv, required_env.
  cbn [List.filter]. simplify_map_eq. reflexivity.
Qed.

Lemma get_conn_params_spec_witness :
  get_conn_params env_empty_user = inl ["PGUSER"] /\
  ["PGUSER"] `sublist_of` required_env /\
  (In "PGUSER" required_env /\
   (getenv env_empty_user "PGUSER" = None \/ getenv env_empty_user "PGUSER" = Some EmptyString)).
Proof.
  assert (H : get_conn_params env_empty_user = inl ["PGUSER"]) by (vm_compute; reflexivity).
  destruct (proj1 (proj2 (get_conn_params_spec env_empty_user)) ["PGUSER"] H) as (_ & Hs & Hk).
  split; [exact H|]. split; [exact Hs|]. apply Hk. left. reflexivity.
Defined.
